(** * helper.py: byte/integer codecs (little-endian integers, varints, base58)

    A shallow embedding of [helper.py] and the properties of its codecs.
    Python integers are [Z], [bytes] values are [list byte], [str] values are
    [string]; a raised exception is the [Raise] branch of [result]. *)

From Stdlib Require Import Strings.String Strings.Ascii Strings.Byte.
From Stdlib Require Import ZArith List Lia Bool DecimalString.
Import ListNotations.
Local Open Scope Z_scope.

(** ** Python values and exceptions *)

Module Py.

(** The exceptions the modelled functions can raise.  [LoopBound] is no
    Python exception: it marks a modelled [while] loop that used up its
    iteration bound, and [encode_base58_terminates] shows that it is never
    produced. *)
Inductive exn : Set :=
| IndexError
| ValueError
| OverflowError
| RuntimeError
| UnicodeEncodeError
| UnicodeDecodeError
| LoopBound.

Inductive result (A : Type) : Type :=
| Ok (a : A)
| Raise (e : exn).
Arguments Ok {A} a.
Arguments Raise {A} e.

Definition bind {A B} (r : result A) (k : A -> result B) : result B :=
  match r with
  | Ok a => k a
  | Raise e => Raise e
  end.

Definition is_ok {A} (r : result A) : bool :=
  match r with Ok _ => true | Raise _ => false end.

(** [bytes] *)
Definition bytes := list byte.

Definition byte_to_Z (b : byte) : Z := Z.of_N (Byte.to_N b).

Definition byte_of_Z (z : Z) : byte :=
  match Byte.of_N (Z.to_N z) with
  | Some b => b
  | None => x00
  end.

(** [bytes(l)] for a list of integers: every item must be in [range(256)]. *)
Fixpoint bytes_of_ints (l : list Z) : result bytes :=
  match l with
  | [] => Ok []
  | i :: t =>
      if (0 <=? i) && (i <? 256)
      then bind (bytes_of_ints t) (fun bt => Ok (byte_of_Z i :: bt))
      else Raise ValueError
  end.

(** [b[k]] on bytes: the item as an integer; a negative [k] counts from
    the end; [IndexError] out of range. *)
Definition getitem (b : bytes) (k : Z) : result Z :=
  let k' := if k <? 0 then k + Z.of_nat (List.length b) else k in
  if k' <? 0 then Raise IndexError
  else match nth_error b (Z.to_nat k') with
       | Some x => Ok (byte_to_Z x)
       | None => Raise IndexError
       end.

(** [binascii.hexlify]: two lowercase hexadecimal digits per byte. *)
Definition hexdigits : bytes :=
  Eval cbv in list_byte_of_string "0123456789abcdef".

Definition hexlify (s : bytes) : bytes :=
  flat_map (fun x =>
              [nth (Z.to_nat (byte_to_Z x / 16)) hexdigits x00;
               nth (Z.to_nat (byte_to_Z x mod 16)) hexdigits x00]) s.

(** [int(x, 16)] on a bytes object made of hexadecimal digits only (what
    [hexlify] produces); the empty literal is a [ValueError].  Signs,
    blanks, underscores and a [0x] prefix, which Python also accepts, are
    not modelled and count as invalid here. *)
Definition hex_value (c : byte) : option Z :=
  let n := byte_to_Z c in
  if (48 <=? n) && (n <=? 57) then Some (n - 48)
  else if (97 <=? n) && (n <=? 102) then Some (n - 87)
  else if (65 <=? n) && (n <=? 70) then Some (n - 55)
  else None.

Fixpoint int16_digits (acc : Z) (x : bytes) : result Z :=
  match x with
  | [] => Ok acc
  | c :: t =>
      match hex_value c with
      | Some d => int16_digits (acc * 16 + d) t
      | None => Raise ValueError
      end
  end.

Definition int_base16 (x : bytes) : result Z :=
  match x with
  | [] => Raise ValueError
  | _ => int16_digits 0 x
  end.

(** [b.index(c)]: position of the first item equal to [c]. *)
Fixpoint index (b : bytes) (c : byte) : result Z :=
  match b with
  | [] => Raise ValueError
  | x :: t => if Byte.eqb x c then Ok 0
              else bind (index t c) (fun k => Ok (k + 1))
  end.

(** [int.from_bytes] and [int.to_bytes] (unsigned). *)
Inductive byteorder : Set := little | big.

Fixpoint from_le (b : bytes) : Z :=
  match b with
  | [] => 0
  | x :: t => byte_to_Z x + 256 * from_le t
  end.

Fixpoint to_le (len : nat) (n : Z) : bytes :=
  match len with
  | O => []
  | S l => byte_of_Z (n mod 256) :: to_le l (n / 256)
  end.

Definition int_from_bytes (b : bytes) (order : byteorder) : Z :=
  match order with
  | little => from_le b
  | big => from_le (rev b)
  end.

Definition int_to_bytes (n length : Z) (order : byteorder) : result bytes :=
  if length <? 0 then Raise ValueError
  else if n <? 0 then Raise OverflowError
  else if 256 ^ length <=? n then Raise OverflowError
  else
    let le := to_le (Z.to_nat length) n in
    Ok (match order with little => le | big => rev le end).

(** [b.decode('ascii')] and [s.encode('ascii')]. *)
Definition is_ascii (x : byte) : bool := (Byte.to_N x <? 128)%N.

Definition decode_ascii (b : bytes) : result string :=
  if forallb is_ascii b then Ok (string_of_list_byte b)
  else Raise UnicodeDecodeError.

Definition encode_ascii (s : string) : result bytes :=
  let b := list_byte_of_string s in
  if forallb is_ascii b then Ok b else Raise UnicodeEncodeError.

(** A readable byte stream ([io.BytesIO] and the like): the bytes not yet
    consumed.  [read n] hands out at most [n] bytes and advances. *)
Definition stream := bytes.

Definition read (n : nat) (s : stream) : bytes * stream :=
  (firstn n s, skipn n s).

(** [str(i)], as [format] applies it to an integer: the decimal digits.
    CPython (3.11 with its default settings) refuses an integer of more than
    [sys.get_int_max_str_digits()] = 4300 digits with a [ValueError]. *)
Definition int_max_str_digits : Z := 4300.

Definition str_of_int (i : Z) : result string :=
  if 10 ^ int_max_str_digits <=? Z.abs i then Raise ValueError
  else Ok (NilZero.string_of_int (Z.to_int i)).

(** [text.format(i)] for a [text] that ends in its one field [{}]; [text]
    is given without the field. *)
Definition format_int (text : string) (i : Z) : result string :=
  bind (str_of_int i) (fun digits => Ok (text ++ digits)%string).

(** Slice [b[i:len(b)-j]], as in [b[1:-4]]. *)
Definition slice_from_to_end (i j : nat) (b : bytes) : bytes :=
  skipn i (firstn (List.length b - j) b).

End Py.
Import Py.

Notation "x <- r ;; k" := (bind r (fun x => k))
  (at level 61, r at next level, right associativity).

(** ** Endian codec *)

(** [little_endian_to_int(b)] *)
Definition little_endian_to_int (b : bytes) : Z :=
  int_from_bytes b little.

(** [int_to_little_endian(n, length)] *)
Definition int_to_little_endian (n length : Z) : result bytes :=
  int_to_bytes n length little.

(** ** Varint codec *)

(** [read_varint(s)]: returns the integer and the advanced stream. *)
Definition read_varint (s : stream) : result (Z * stream) :=
  let (b, s1) := read 1 s in
  i <- getitem b 0 ;;
  if i =? 0xfd then
    let (b2, s2) := read 2 s1 in Ok (little_endian_to_int b2, s2)
  else if i =? 0xfe then
    let (b4, s2) := read 4 s1 in Ok (little_endian_to_int b4, s2)
  else if i =? 0xff then
    let (b8, s2) := read 8 s1 in Ok (little_endian_to_int b8, s2)
  else Ok (i, s1).

(** [encode_varint(i)].  In the last branch the message of the
    [RuntimeError] is formatted first, which can itself raise. *)
Definition encode_varint (i : Z) : result bytes :=
  if i <? 0xfd then bytes_of_ints [i]
  else if i <? 0x10000 then
    b <- int_to_little_endian i 2 ;; Ok (xfd :: b)
  else if i <? 0x100000000 then
    b <- int_to_little_endian i 4 ;; Ok (xfe :: b)
  else if i <? 0x10000000000000000 then
    b <- int_to_little_endian i 8 ;; Ok (xff :: b)
  else
    _ <- format_int "integer too large: " i ;; Raise RuntimeError.

(** ** Hashing *)

(** [hashlib.sha256]: the SHA-256 function of FIPS 180-4, on 32-bit words
    held in [Z]. *)
Module Sha256.

Definition w32 (x : Z) : Z := Z.land x 0xffffffff.

Definition rotr (n x : Z) : Z :=
  w32 (Z.lor (Z.shiftr x n) (Z.shiftl x (32 - n))).

Definition Ch (x y z : Z) : Z :=
  Z.lxor (Z.land x y) (Z.land (Z.lxor x 0xffffffff) z).

Definition Maj (x y z : Z) : Z :=
  Z.lxor (Z.lxor (Z.land x y) (Z.land x z)) (Z.land y z).

Definition Sigma0 (x : Z) : Z :=
  Z.lxor (Z.lxor (rotr 2 x) (rotr 13 x)) (rotr 22 x).
Definition Sigma1 (x : Z) : Z :=
  Z.lxor (Z.lxor (rotr 6 x) (rotr 11 x)) (rotr 25 x).
Definition sigma0 (x : Z) : Z :=
  Z.lxor (Z.lxor (rotr 7 x) (rotr 18 x)) (Z.shiftr x 3).
Definition sigma1 (x : Z) : Z :=
  Z.lxor (Z.lxor (rotr 17 x) (rotr 19 x)) (Z.shiftr x 10).

(** The round constants are the first 32 bits of the fractional parts of
    the cube roots of the first 64 primes; the initial hash value takes the
    square roots of the first 8. *)
Definition primes : list Z :=
  [ 2; 3; 5; 7; 11; 13; 17; 19; 23; 29; 31; 37;
    41; 43; 47; 53; 59; 61; 67; 71; 73; 79; 83; 89;
    97; 101; 103; 107; 109; 113; 127; 131; 137; 139; 149; 151;
    157; 163; 167; 173; 179; 181; 191; 193; 197; 199; 211; 223;
    227; 229; 233; 239; 241; 251; 257; 263; 269; 271; 277; 281;
    283; 293; 307; 311 ].

Fixpoint cube_root_bits (i : nat) (n r : Z) : Z :=
  match i with
  | O => r
  | S i' =>
      let c := r + 2 ^ Z.of_nat i' in
      cube_root_bits i' n (if c * c * c <=? n then c else r)
  end.

Definition frac_cube_root (p : Z) : Z :=
  w32 (cube_root_bits 36 (p * 2 ^ 96) 0).

Definition frac_square_root (p : Z) : Z :=
  w32 (Z.sqrt (p * 2 ^ 64)).

Definition K : list Z := Eval vm_compute in map frac_cube_root primes.

(** The eight working variables / chaining values. *)
Record state : Set := mkState
  { ha : Z; hb : Z; hc : Z; hd : Z; he : Z; hf : Z; hg : Z; hh : Z }.

Definition H0 : state :=
  Eval vm_compute in
    let h k := frac_square_root (nth k primes 0) in
    mkState (h 0%nat) (h 1%nat) (h 2%nat) (h 3%nat)
            (h 4%nat) (h 5%nat) (h 6%nat) (h 7%nat).

(** Padding: a [0x80] byte, zero bytes up to 56 modulo 64, and the bit
    length as a 64-bit big-endian integer. *)
Definition pad (m : bytes) : bytes :=
  let l := Z.of_nat (List.length m) in
  m ++ x80 :: repeat x00 (Z.to_nat ((55 - l) mod 64))
    ++ rev (to_le 8 (8 * l)).

Fixpoint blocks (n : nat) (m : bytes) : list bytes :=
  match n with
  | O => []
  | S n' => firstn 64 m :: blocks n' (skipn 64 m)
  end.

Fixpoint words (n : nat) (b : bytes) : list Z :=
  match n with
  | O => []
  | S n' => from_le (rev (firstn 4 b)) :: words n' (skipn 4 b)
  end.

(** Message schedule: extend the 16 block words to 64. *)
Fixpoint schedule (n : nat) (w : list Z) : list Z :=
  match n with
  | O => w
  | S n' =>
      let i := List.length w in
      let at_ k := nth (i - k) w 0 in
      schedule n'
        (w ++ [w32 (at_ 16%nat + sigma0 (at_ 15%nat)
                    + at_ 7%nat + sigma1 (at_ 2%nat))])
  end.

Definition round (s : state) (kw : Z * Z) : state :=
  let t1 := w32 (hh s + Sigma1 (he s) + Ch (he s) (hf s) (hg s)
                 + fst kw + snd kw) in
  let t2 := w32 (Sigma0 (ha s) + Maj (ha s) (hb s) (hc s)) in
  mkState (w32 (t1 + t2)) (ha s) (hb s) (hc s)
          (w32 (hd s + t1)) (he s) (hf s) (hg s).

Definition compress (h : state) (block : bytes) : state :=
  let w := schedule 48 (words 16 block) in
  let s := fold_left round (combine K w) h in
  mkState (w32 (ha h + ha s)) (w32 (hb h + hb s))
          (w32 (hc h + hc s)) (w32 (hd h + hd s))
          (w32 (he h + he s)) (w32 (hf h + hf s))
          (w32 (hg h + hg s)) (w32 (hh h + hh s)).

Definition word_bytes (w : Z) : bytes := rev (to_le 4 w).

Definition digest_of (s : state) : bytes :=
  word_bytes (ha s) ++ word_bytes (hb s) ++ word_bytes (hc s)
    ++ word_bytes (hd s) ++ word_bytes (he s) ++ word_bytes (hf s)
    ++ word_bytes (hg s) ++ word_bytes (hh s).

Definition sha256 (m : bytes) : bytes :=
  let p := pad m in
  digest_of (fold_left compress (blocks (List.length p / 64) p) H0).

End Sha256.

(** [double_sha256(s)] *)
Definition double_sha256 (s : bytes) : bytes :=
  Sha256.sha256 (Sha256.sha256 s).

(** ** Base58 codec *)

Definition BASE58_ALPHABET : bytes :=
  Eval cbv in list_byte_of_string
    "123456789ABCDEFGHJKLMNPQRSTUVWXYZabcdefghijkmnopqrstuvwxyz".

(** The first loop of [encode_base58]: how many zero bytes [s] starts with. *)
Fixpoint leading_zeros (s : bytes) : nat :=
  match s with
  | [] => O
  | c :: t => if byte_to_Z c =? 0 then S (leading_zeros t) else O
  end.

(** The [while num > 0] loop of [encode_base58]; [result.insert(0, _)] puts
    each new digit in front.  [fuel] bounds the number of iterations:
    [encode_base58] passes the bit length of [num], and every iteration
    divides [num] by 58. *)
Fixpoint base58_digits (fuel : nat) (num : Z) (res : bytes) : result bytes :=
  if num >? 0 then
    match fuel with
    | O => Raise LoopBound
    | S fuel' =>
        let (q, md) := Z.div_eucl num 58 in
        c <- getitem BASE58_ALPHABET md ;;
        x <- bytes_of_ints [c] ;;
        base58_digits fuel' q (x ++ res)
    end
  else Ok res.

(** [encode_base58(s)] *)
Definition encode_base58 (s : bytes) : result bytes :=
  let count := leading_zeros s in
  let prefix := repeat x31 count in
  num <- int_base16 (hexlify s) ;;
  res <- base58_digits (S (Z.to_nat (Z.log2 num))) num [] ;;
  Ok (prefix ++ res).

(** [encode_base58_checksum(s)] *)
Definition encode_base58_checksum (s : bytes) : result string :=
  b <- encode_base58 (s ++ firstn 4 (double_sha256 s)) ;;
  decode_ascii b.

(** The [for] loop of [decode_base58]. *)
Fixpoint base58_number (num : Z) (cs : bytes) : result Z :=
  match cs with
  | [] => Ok num
  | c :: t =>
      k <- index BASE58_ALPHABET c ;;
      base58_number (num * 58 + k) t
  end.

(** [decode_base58(s)] *)
Definition decode_base58 (s : string) : result bytes :=
  cs <- encode_ascii s ;;
  num <- base58_number 0 cs ;;
  buf <- int_to_bytes num 25 big ;;
  Ok (slice_from_to_end 1 4 buf).

(** [bytes_to_str(b)] and [str_to_bytes(s)] called without their [encoding]
    argument, which then is ['ascii']; other encodings are not modelled. *)
Definition bytes_to_str (b : bytes) : result string := decode_ascii b.
Definition str_to_bytes (s : string) : result bytes := encode_ascii s.

(** Byte-string literals written in hexadecimal, as the tests of
    [helper.py] write them with [unhexlify]. *)
Definition unhex (s : string) : bytes :=
  let fix go (l : bytes) : bytes :=
    match l with
    | a :: b :: t =>
        match hex_value a, hex_value b with
        | Some x, Some y => byte_of_Z (16 * x + y) :: go t
        | _, _ => []
        end
    | _ => []
    end in
  go (list_byte_of_string s).

(** How many bytes [read_varint] asks for after the prefix byte [p]. *)
Definition varint_payload (p : byte) : nat :=
  match p with
  | xfd => 2
  | xfe => 4
  | xff => 8
  | _ => 0
  end.

(** The four encoding widths of a varint and the values each can hold. *)
Definition varint_widths : list nat := [1; 3; 5; 9]%nat.

Definition varint_capacity (width : nat) : Z :=
  match width with
  | 1%nat => 0xfd
  | 3%nat => 0x10000
  | 5%nat => 0x100000000
  | 9%nat => 0x10000000000000000
  | _ => 0
  end.

(** A stream that ends before a varint does: no prefix byte, or a prefix
    that announces more bytes than are left. *)
Definition truncated_varint (s : stream) : Prop :=
  match s with
  | [] => True
  | p :: rest => (List.length rest < varint_payload p)%nat
  end.

(** The 25-byte buffer that [decode_base58] builds before slicing it. *)
Definition base58_buffer (s : string) : result bytes :=
  cs <- encode_ascii s ;;
  num <- base58_number 0 cs ;;
  int_to_bytes num 25 big.

Definition bytes_eqb (a b : bytes) : bool :=
  if list_eq_dec Byte.byte_eq_dec a b then true else false.

(** Base58Check verification as a caller does it: the last 4 bytes of the
    25-byte buffer against the double hash of the 21 bytes before them. *)
Definition checksum_verified (s : string) : bool :=
  match base58_buffer s with
  | Ok buf => bytes_eqb (firstn 4 (double_sha256 (firstn 21 buf))) (skipn 21 buf)
  | Raise _ => false
  end.

(** [decode_base58(encode_base58_checksum(b))] *)
Definition base58check_roundtrip (b : bytes) : result bytes :=
  txt <- encode_base58_checksum b ;; decode_base58 txt.

(** [decode_base58(encode_base58(s))], the bytes read as ASCII text by
    [bytes_to_str] in between. *)
Definition base58_roundtrip (s : bytes) : result bytes :=
  b <- encode_base58 s ;; txt <- bytes_to_str b ;; decode_base58 txt.

(** [hashlib.new('ripemd160', _)]: the RIPEMD-160 function, on 32-bit words
    held in [Z]; words and the length field are little-endian. *)
Module Ripemd160.

Definition w32 (x : Z) : Z := Z.land x 0xffffffff.

Definition rol (n : nat) (x : Z) : Z :=
  w32 (Z.lor (Z.shiftl x (Z.of_nat n)) (Z.shiftr x (32 - Z.of_nat n))).

Definition not32 (x : Z) : Z := Z.lxor x 0xffffffff.

(** The five round functions, by step number. *)
Definition f (j : nat) (x y z : Z) : Z :=
  if (j <? 16)%nat then Z.lxor (Z.lxor x y) z
  else if (j <? 32)%nat then Z.lor (Z.land x y) (Z.land (not32 x) z)
  else if (j <? 48)%nat then Z.lxor (Z.lor x (not32 y)) z
  else if (j <? 64)%nat then Z.lor (Z.land x z) (Z.land y (not32 z))
  else Z.lxor x (Z.lor y (not32 z)).

(** Message word order: the identity, then powers of the permutation [rho]
    on the left line; the same behind [pi : i -> 9 i + 5 mod 16] on the
    right line. *)
Definition rho : list nat :=
  [7; 4; 13; 1; 10; 6; 15; 3; 12; 0; 9; 5; 2; 14; 11; 8]%nat.

Definition pi : list nat :=
  map (fun i => ((9 * i + 5) mod 16)%nat) (seq 0 16).

Definition after (p q : list nat) : list nat :=
  map (fun i => nth i p O) q.

Fixpoint orders (n : nat) (q : list nat) : list nat :=
  match n with
  | O => []
  | S n' => q ++ orders n' (after rho q)
  end.

Definition order_left : list nat := Eval vm_compute in orders 5 (seq 0 16).
Definition order_right : list nat := Eval vm_compute in orders 5 pi.

Definition shift_left : list nat :=
  [ 11; 14; 15; 12; 5; 8; 7; 9; 11; 13; 14; 15; 6; 7; 9; 8;
    7; 6; 8; 13; 11; 9; 7; 15; 7; 12; 15; 9; 11; 7; 13; 12;
    11; 13; 6; 7; 14; 9; 13; 15; 14; 8; 13; 6; 5; 12; 7; 5;
    11; 12; 14; 15; 14; 15; 9; 8; 9; 14; 5; 6; 8; 6; 5; 12;
    9; 15; 5; 11; 6; 8; 13; 12; 5; 12; 13; 14; 11; 8; 5; 6 ]%nat.

Definition shift_right : list nat :=
  [ 8; 9; 9; 11; 13; 15; 15; 5; 7; 7; 8; 11; 14; 14; 12; 6;
    9; 13; 15; 7; 12; 8; 9; 11; 7; 7; 12; 7; 6; 15; 13; 11;
    9; 7; 15; 11; 8; 6; 6; 14; 12; 13; 5; 14; 13; 13; 7; 5;
    15; 5; 8; 11; 14; 14; 6; 14; 6; 9; 12; 9; 12; 5; 15; 8;
    8; 5; 12; 9; 12; 5; 14; 6; 8; 13; 6; 5; 15; 13; 11; 11 ]%nat.

Definition K_left : list Z :=
  [0; 0x5a827999; 0x6ed9eba1; 0x8f1bbcdc; 0xa953fd4e].
Definition K_right : list Z :=
  [0x50a28be6; 0x5c4dd124; 0x6d703ef3; 0x7a6d76e9; 0].

Record state : Set := mkState { ha : Z; hb : Z; hc : Z; hd : Z; he : Z }.

Definition H0 : state :=
  mkState 0x67452301 0xefcdab89 0x98badcfe 0x10325476 0xc3d2e1f0.

Definition step (X : list Z) (fj r sh : nat) (k : Z) (s : state) : state :=
  let t := w32 (rol sh (w32 (ha s + f fj (hb s) (hc s) (hd s)
                             + nth r X 0 + k)) + he s) in
  mkState (he s) t (hb s) (rol 10 (hc s)) (hd s).

Definition left_line (X : list Z) (s : state) (j : nat) : state :=
  step X j (nth j order_left O) (nth j shift_left O)
       (nth (j / 16) K_left 0) s.

Definition right_line (X : list Z) (s : state) (j : nat) : state :=
  step X (79 - j) (nth j order_right O) (nth j shift_right O)
       (nth (j / 16) K_right 0) s.

Fixpoint words (n : nat) (b : bytes) : list Z :=
  match n with
  | O => []
  | S n' => from_le (firstn 4 b) :: words n' (skipn 4 b)
  end.

Definition compress (h : state) (block : bytes) : state :=
  let X := words 16 block in
  let l := fold_left (left_line X) (seq 0 80) h in
  let r := fold_left (right_line X) (seq 0 80) h in
  mkState (w32 (hb h + hc l + hd r)) (w32 (hc h + hd l + he r))
          (w32 (hd h + he l + ha r)) (w32 (he h + ha l + hb r))
          (w32 (ha h + hb l + hc r)).

Definition pad (m : bytes) : bytes :=
  let l := Z.of_nat (List.length m) in
  m ++ x80 :: repeat x00 (Z.to_nat ((55 - l) mod 64)) ++ to_le 8 (8 * l).

Definition digest_of (s : state) : bytes :=
  to_le 4 (ha s) ++ to_le 4 (hb s) ++ to_le 4 (hc s)
    ++ to_le 4 (hd s) ++ to_le 4 (he s).

Definition ripemd160 (m : bytes) : bytes :=
  let p := pad m in
  digest_of (fold_left compress (Sha256.blocks (List.length p / 64) p) H0).

End Ripemd160.

(** [hash160(s)] *)
Definition hash160 (s : bytes) : bytes :=
  Ripemd160.ripemd160 (Sha256.sha256 s).

(** ** Hexadecimal strings *)

(** [binascii.unhexlify] on a [str]: two hexadecimal digits of either case
    per byte.  An odd length, a character that is no hexadecimal digit and
    a non-ASCII character all raise a [ValueError] ([binascii.Error] is a
    subclass of it). *)
Fixpoint unhexlify_digits (l : bytes) : result bytes :=
  match l with
  | [] => Ok []
  | [_] => Raise ValueError
  | a :: b :: t =>
      match hex_value a, hex_value b with
      | Some x, Some y =>
          bt <- unhexlify_digits t ;; Ok (byte_of_Z (16 * x + y) :: bt)
      | _, _ => Raise ValueError
      end
  end.

Definition unhexlify (h : string) : result bytes :=
  unhexlify_digits (list_byte_of_string h).

(** [flip_endian(h)] *)
Definition flip_endian (h : string) : result string :=
  b <- unhexlify h ;;
  let b_rev := rev b in
  decode_ascii (hexlify b_rev).

Definition is_hex_digit (c : byte) : bool :=
  match hex_value c with Some _ => true | None => false end.

(** How many characters ['1'] a base58 text starts with. *)
Fixpoint leading_ones (txt : bytes) : nat :=
  match txt with
  | [] => O
  | c :: t => if Byte.eqb c x31 then S (leading_ones t) else O
  end.

(** The characters of a text all belong to the base58 alphabet. *)
Definition base58_text (txt : bytes) : Prop :=
  Forall (fun c => In c BASE58_ALPHABET) txt.

(** * Properties *)

(** ** The tests of [helper.py] *)

Example sha256_abc :
  Sha256.sha256 (list_byte_of_string "abc")
  = unhex "ba7816bf8f01cfea414140de5dae2223b00361a396177a9cb410ff61f20015ad".
Proof. vm_compute. reflexivity. Qed.

Example test_base58_encode :
  encode_base58_checksum
    (x6f :: unhex "507b27411ccf7f16f10297de6cef3f291623eddf")
  = Ok "mnrVtF8DWjMu839VW3rBfgYaAfKk8983Xf"%string.
Proof. vm_compute. reflexivity. Qed.

Example test_base58_decode :
  decode_base58 "mnrVtF8DWjMu839VW3rBfgYaAfKk8983Xf"
  = Ok (unhex "507b27411ccf7f16f10297de6cef3f291623eddf").
Proof. vm_compute. reflexivity. Qed.

Example test_little_endian_to_int :
  little_endian_to_int (unhex "99c3980000000000") = 10011545
  /\ little_endian_to_int (unhex "a135ef0100000000") = 32454049.
Proof. split; reflexivity. Qed.

Example test_int_to_little_endian :
  int_to_little_endian 1 4 = Ok (unhex "01000000")
  /\ int_to_little_endian 10011545 8 = Ok (unhex "99c3980000000000").
Proof. split; reflexivity. Qed.

(** ** Bytes and integers *)

(** Settle the integer tests of an [if] from the hypotheses at hand. *)
Ltac settle_tests :=
  repeat match goal with
         | |- context [?a <? ?b] => destruct (Z.ltb_spec a b); try lia
         | |- context [?a <=? ?b] => destruct (Z.leb_spec a b); try lia
         | |- context [?a =? ?b] => destruct (Z.eqb_spec a b); try lia
         end.


Lemma byte_to_Z_range (b : byte) : 0 <= byte_to_Z b < 256.
Proof.
  unfold byte_to_Z. pose proof (Byte.to_N_bounded b). lia.
Qed.

Lemma byte_to_of_Z (z : Z) : 0 <= z < 256 -> byte_to_Z (byte_of_Z z) = z.
Proof.
  intros Hz. unfold byte_of_Z, byte_to_Z.
  destruct (Byte.of_N (Z.to_N z)) as [b|] eqn:E.
  - apply Byte.to_of_N in E. rewrite E. lia.
  - apply Byte.of_N_None_iff in E. lia.
Qed.

Lemma byte_of_to_Z (b : byte) : byte_of_Z (byte_to_Z b) = b.
Proof.
  unfold byte_of_Z, byte_to_Z. rewrite N2Z.id, Byte.of_to_N. reflexivity.
Qed.

Lemma length_to_le (n : nat) (v : Z) : List.length (to_le n v) = n.
Proof.
  revert v. induction n as [|n IH]; intros v; simpl; [|rewrite IH]; reflexivity.
Qed.

Lemma from_le_to_le (n : nat) (v : Z) :
  from_le (to_le n v) = v mod 256 ^ Z.of_nat n.
Proof.
  revert v. induction n as [|n IH]; intros v.
  - simpl. rewrite Z.mod_1_r. reflexivity.
  - cbn [to_le from_le]. rewrite IH, byte_to_of_Z by (apply Z.mod_pos_bound; lia).
    rewrite Nat2Z.inj_succ, Z.pow_succ_r by lia.
    rewrite Z.rem_mul_r by lia. reflexivity.
Qed.

Lemma from_le_range (b : bytes) :
  0 <= from_le b < 256 ^ Z.of_nat (List.length b).
Proof.
  induction b as [|x t IH].
  - simpl. lia.
  - cbn [from_le List.length]. rewrite Nat2Z.inj_succ, Z.pow_succ_r by lia.
    pose proof (byte_to_Z_range x). lia.
Qed.

Lemma int_to_bytes_ok (v len : Z) (order : byteorder) :
  0 <= len -> 0 <= v < 256 ^ len ->
  int_to_bytes v len order
  = Ok (match order with
        | little => to_le (Z.to_nat len) v
        | big => rev (to_le (Z.to_nat len) v)
        end).
Proof.
  intros Hlen Hv. unfold int_to_bytes. settle_tests. reflexivity.
Qed.

Lemma int_to_bytes_overflow (v len : Z) (order : byteorder) :
  0 <= len -> 256 ^ len <= v -> int_to_bytes v len order = Raise OverflowError.
Proof.
  intros Hlen Hv. unfold int_to_bytes. settle_tests; reflexivity.
Qed.

(** ** Endian codec *)

(** C7: for a positive length [len] and [0 <= v <= 256^len - 1],
    [int_to_little_endian(v, len)] returns [len] bytes and
    [little_endian_to_int] of them is [v] again. *)
Theorem little_endian_roundtrip (len v : Z) :
  0 < len -> 0 <= v <= 256 ^ len - 1 ->
  exists bs,
    int_to_little_endian v len = Ok bs
    /\ Z.of_nat (List.length bs) = len
    /\ little_endian_to_int bs = v.
Proof.
  intros Hlen Hv. exists (to_le (Z.to_nat len) v).
  unfold int_to_little_endian, little_endian_to_int, int_from_bytes.
  rewrite int_to_bytes_ok by lia.
  rewrite length_to_le, from_le_to_le, Z2Nat.id by lia.
  repeat split. apply Z.mod_small. lia.
Qed.

Lemma little_endian_roundtrip_witness :
  exists bs,
    int_to_little_endian 10011545 8 = Ok bs
    /\ Z.of_nat (List.length bs) = 8
    /\ little_endian_to_int bs = 10011545.
Proof.
  apply (little_endian_roundtrip 8 10011545); [lia | vm_compute; split; discriminate].
Defined.

(** C8: for a positive [length] and [value >= 256^length],
    [int_to_little_endian(value, length)] raises [OverflowError]; no bytes
    are returned. *)
Theorem int_to_little_endian_too_large (value length : Z) :
  0 < length -> 256 ^ length <= value ->
  int_to_little_endian value length = Raise OverflowError.
Proof.
  intros Hlen Hv. apply int_to_bytes_overflow; lia.
Qed.

Lemma int_to_little_endian_too_large_witness :
  int_to_little_endian 256 1 = Raise OverflowError.
Proof.
  apply (int_to_little_endian_too_large 256 1); [lia | vm_compute; discriminate].
Defined.

(** ** Varint codec *)

Lemma read_varint_nil : read_varint [] = Raise IndexError.
Proof. reflexivity. Qed.

Lemma read_varint_cons (p : byte) (rest : stream) :
  read_varint (p :: rest)
  = if byte_to_Z p =? 0xfd then
      Ok (little_endian_to_int (firstn 2 rest), skipn 2 rest)
    else if byte_to_Z p =? 0xfe then
      Ok (little_endian_to_int (firstn 4 rest), skipn 4 rest)
    else if byte_to_Z p =? 0xff then
      Ok (little_endian_to_int (firstn 8 rest), skipn 8 rest)
    else Ok (byte_to_Z p, rest).
Proof. reflexivity. Qed.

Lemma read_exact (n : nat) (b rest : bytes) :
  List.length b = n -> read n (b ++ rest) = (b, rest).
Proof.
  intros <-. unfold read.
  rewrite firstn_app, firstn_all, Nat.sub_diag, firstn_O, app_nil_r.
  rewrite skipn_app, skipn_all, Nat.sub_diag. reflexivity.
Qed.

Lemma int_to_little_endian_ok (v len : Z) :
  0 <= len -> 0 <= v < 256 ^ len ->
  int_to_little_endian v len = Ok (to_le (Z.to_nat len) v).
Proof. intros. unfold int_to_little_endian. now rewrite int_to_bytes_ok. Qed.

Lemma encode_varint_1 (v : Z) :
  0 <= v < 0xfd -> encode_varint v = Ok [byte_of_Z v].
Proof.
  intros Hv. unfold encode_varint. settle_tests.
  cbn [bytes_of_ints bind]. settle_tests. reflexivity.
Qed.

Lemma encode_varint_3 (v : Z) :
  0xfd <= v < 0x10000 -> encode_varint v = Ok (xfd :: to_le 2 v).
Proof.
  intros Hv. unfold encode_varint. settle_tests.
  rewrite int_to_little_endian_ok by (change (256 ^ 2) with 0x10000; lia).
  reflexivity.
Qed.

Lemma encode_varint_5 (v : Z) :
  0x10000 <= v < 0x100000000 -> encode_varint v = Ok (xfe :: to_le 4 v).
Proof.
  intros Hv. unfold encode_varint. settle_tests.
  rewrite int_to_little_endian_ok by (change (256 ^ 4) with 0x100000000; lia).
  reflexivity.
Qed.

Lemma encode_varint_9 (v : Z) :
  0x100000000 <= v < 0x10000000000000000 ->
  encode_varint v = Ok (xff :: to_le 8 v).
Proof.
  intros Hv. unfold encode_varint. settle_tests.
  rewrite int_to_little_endian_ok
    by (change (256 ^ 8) with 0x10000000000000000; lia).
  reflexivity.
Qed.

Lemma read_varint_payload (p : byte) (n : nat) (v : Z) (rest : stream) :
  varint_payload p = n -> (0 < n)%nat -> 0 <= v < 256 ^ Z.of_nat n ->
  read_varint (p :: to_le n v ++ rest) = Ok (v, rest).
Proof.
  intros Hp Hn Hv. rewrite read_varint_cons.
  assert (Hrd : forall k, k = n ->
            (little_endian_to_int (firstn k (to_le n v ++ rest)),
             skipn k (to_le n v ++ rest)) = (v, rest)).
  { intros k ->.
    pose proof (read_exact n (to_le n v) rest (length_to_le n v)) as E.
    unfold read in E. injection E as E1 E2. rewrite E1, E2.
    unfold little_endian_to_int, int_from_bytes.
    rewrite from_le_to_le, Z.mod_small by lia. reflexivity. }
  destruct p; cbn in Hp; subst n; try lia;
    cbn [byte_to_Z Byte.to_N Z.of_N Z.eqb Pos.eqb];
    rewrite Hrd by reflexivity; reflexivity.
Qed.

Lemma read_varint_small (v : Z) (rest : stream) :
  0 <= v < 0xfd -> read_varint (byte_of_Z v :: rest) = Ok (v, rest).
Proof.
  intros Hv. rewrite read_varint_cons, byte_to_of_Z by lia.
  settle_tests. reflexivity.
Qed.

(** The encoding of [v] and what [read_varint] makes of it, by range. *)
Lemma varint_cases (v : Z) :
  0 <= v < 0x10000000000000000 ->
  exists bs,
    encode_varint v = Ok bs
    /\ In (List.length bs) varint_widths
    /\ v < varint_capacity (List.length bs)
    /\ (forall w, In w varint_widths -> v < varint_capacity w ->
                  (List.length bs <= w)%nat)
    /\ forall rest, read_varint (bs ++ rest) = Ok (v, rest).
Proof.
  intros Hv.
  assert (Hmin : forall k : nat,
             In k varint_widths ->
             (forall w, In w varint_widths -> (w < k)%nat ->
                        varint_capacity w <= v) ->
             forall w, In w varint_widths -> v < varint_capacity w ->
                       (k <= w)%nat).
  { intros k _ Hbelow w Hw Hcap.
    destruct (Nat.le_gt_cases k w) as [|Hlt]; [assumption|].
    specialize (Hbelow w Hw Hlt). lia. }
  destruct (Z_lt_le_dec v 0xfd) as [H1|H1];
    [|destruct (Z_lt_le_dec v 0x10000) as [H2|H2];
      [|destruct (Z_lt_le_dec v 0x100000000) as [H3|H3]]].
  - exists [byte_of_Z v]. rewrite encode_varint_1 by lia.
    split; [reflexivity|]. split; [cbn; tauto|]. split; [exact H1|].
    split; [|intros rest; apply read_varint_small; lia].
    cbn [List.length]. intros w Hw _. cbn in Hw. lia.
  - exists (xfd :: to_le 2 v). rewrite encode_varint_3 by lia.
    split; [reflexivity|]. split; [cbn; tauto|]. split; [exact H2|].
    split; [|intros rest; apply (read_varint_payload xfd 2 v rest);
             [reflexivity | lia | change (256 ^ Z.of_nat 2) with 0x10000; lia]].
    apply Hmin; [cbn; tauto|]. cbn [List.length to_le].
    intros w Hw Hlt. cbn in Hw.
    destruct Hw as [<-|[<-|[<-|[<-|[]]]]]; cbn; lia.
  - exists (xfe :: to_le 4 v). rewrite encode_varint_5 by lia.
    split; [reflexivity|]. split; [cbn; tauto|]. split; [exact H3|].
    split; [|intros rest; apply (read_varint_payload xfe 4 v rest);
             [reflexivity | lia
             | change (256 ^ Z.of_nat 4) with 0x100000000; lia]].
    apply Hmin; [cbn; tauto|]. cbn [List.length to_le].
    intros w Hw Hlt. cbn in Hw.
    destruct Hw as [<-|[<-|[<-|[<-|[]]]]]; cbn; lia.
  - exists (xff :: to_le 8 v). rewrite encode_varint_9 by lia.
    split; [reflexivity|]. split; [cbn; tauto|].
    split; [cbn [List.length to_le varint_capacity]; lia|].
    split; [|intros rest; apply (read_varint_payload xff 8 v rest);
             [reflexivity | lia
             | change (256 ^ Z.of_nat 8) with 0x10000000000000000; lia]].
    apply Hmin; [cbn; tauto|]. cbn [List.length to_le].
    intros w Hw Hlt. cbn in Hw.
    destruct Hw as [<-|[<-|[<-|[<-|[]]]]]; cbn; lia.
Qed.

(** C3: for [0 <= v <= 2^64 - 1], [encode_varint(v)] returns bytes [bs], and
    [read_varint] on a stream holding exactly [bs] returns [v] and leaves the
    stream empty; with more bytes after [bs] it returns [v] and leaves
    those. *)
Theorem varint_roundtrip (v : Z) :
  0 <= v <= 2 ^ 64 - 1 ->
  exists bs,
    encode_varint v = Ok bs
    /\ read_varint bs = Ok (v, [])
    /\ forall rest, read_varint (bs ++ rest) = Ok (v, rest).
Proof.
  intros Hv.
  destruct (varint_cases v) as (bs & Henc & _ & _ & _ & Hrd).
  { change 0x10000000000000000 with (2 ^ 64). lia. }
  exists bs. split; [exact Henc|]. split; [|exact Hrd].
  specialize (Hrd []). now rewrite app_nil_r in Hrd.
Qed.

Lemma varint_roundtrip_witness :
  exists bs,
    encode_varint 70000 = Ok bs
    /\ read_varint bs = Ok (70000, [])
    /\ forall rest, read_varint (bs ++ rest) = Ok (70000, rest).
Proof.
  apply (varint_roundtrip 70000). vm_compute. split; discriminate.
Defined.

(** C5: for [0 <= v <= 2^64 - 1], [encode_varint(v)] is the value as one
    byte below [0xfd]; [0xfd] and 2 little-endian bytes below [0x10000];
    [0xfe] and 4 little-endian bytes below [0x100000000]; [0xff] and 8
    little-endian bytes below [0x10000000000000000].  The width is one of
    1, 3, 5, 9 and is the smallest of them whose capacity exceeds [v]. *)
Theorem encode_varint_width (v : Z) :
  0 <= v <= 2 ^ 64 - 1 ->
  (v < 0xfd -> encode_varint v = Ok [byte_of_Z v]
               /\ byte_to_Z (byte_of_Z v) = v)
  /\ (0xfd <= v < 0x10000 ->
      encode_varint v = Ok (xfd :: to_le 2 v))
  /\ (0x10000 <= v < 0x100000000 ->
      encode_varint v = Ok (xfe :: to_le 4 v))
  /\ (0x100000000 <= v < 0x10000000000000000 ->
      encode_varint v = Ok (xff :: to_le 8 v))
  /\ exists bs,
      encode_varint v = Ok bs
      /\ In (List.length bs) varint_widths
      /\ v < varint_capacity (List.length bs)
      /\ forall w, In w varint_widths -> v < varint_capacity w ->
                   (List.length bs <= w)%nat.
Proof.
  intros Hv.
  split; [intros H; split; [apply encode_varint_1 | apply byte_to_of_Z]; lia|].
  split; [apply encode_varint_3|].
  split; [apply encode_varint_5|].
  split; [apply encode_varint_9|].
  destruct (varint_cases v) as (bs & Henc & Hw & Hcap & Hmin & _).
  { change 0x10000000000000000 with (2 ^ 64). lia. }
  exists bs. auto.
Qed.

Lemma encode_varint_width_witness :
  0 <= 0xfd <= 2 ^ 64 - 1 /\ encode_varint 0xfd = Ok [xfd; xfd; x00].
Proof.
  split; [lia|].
  destruct (encode_varint_width 0xfd) as (_ & H & _); [lia|].
  apply H. lia.
Defined.

(** Above the 64-bit range no bytes are returned: [encode_varint] raises
    [RuntimeError] while the integer has at most 4300 decimal digits, and
    the [ValueError] of formatting the message beyond. *)
Lemma encode_varint_too_large_cases (v : Z) :
  2 ^ 64 <= v ->
  encode_varint v
  = if 10 ^ int_max_str_digits <=? v then Raise ValueError
    else Raise RuntimeError.
Proof.
  intros Hv. change (2 ^ 64) with 0x10000000000000000 in Hv.
  unfold encode_varint, format_int, str_of_int. rewrite Z.abs_eq by lia.
  settle_tests; reflexivity.
Qed.


(** C4 fails as stated: the stream [fd 01] announces two bytes and holds one,
    and [read_varint] returns 1 instead of raising. *)
Lemma read_varint_truncated_counterexample :
  truncated_varint [xfd; x01]
  /\ read_varint [xfd; x01] = Ok (1, [])
  /\ is_ok (read_varint [xfd; x01]) = true.
Proof. repeat split. cbn. lia. Qed.

(** C4, amended: [read_varint] raises (an [IndexError]) exactly when the
    stream has no prefix byte.  When a prefix [0xfd]/[0xfe]/[0xff] is followed
    by fewer than 2/4/8 bytes it does not raise: it returns the little-endian
    value of the bytes that are left and an exhausted stream. *)
Theorem read_varint_exhausted (s : stream) :
  (is_ok (read_varint s) = false <-> s = [])
  /\ (s = [] -> read_varint s = Raise IndexError)
  /\ (forall p rest,
        s = p :: rest -> truncated_varint s ->
        read_varint s = Ok (little_endian_to_int rest, [])).
Proof.
  destruct s as [|p rest].
  - repeat split; intros; try reflexivity; discriminate.
  - split; [|split].
    + rewrite read_varint_cons.
      split; [|discriminate].
      destruct (_ =? 0xfd); [discriminate|].
      destruct (_ =? 0xfe); [discriminate|].
      destruct (_ =? 0xff); discriminate.
    + discriminate.
    + intros p' rest' E Ht. injection E as <- <-.
      unfold truncated_varint in Ht.
      assert (Hall : forall n, (List.length rest < n)%nat ->
                (little_endian_to_int (firstn n rest), skipn n rest)
                = (little_endian_to_int rest, [])).
      { intros n Hn. rewrite firstn_all2, skipn_all2 by lia. reflexivity. }
      rewrite read_varint_cons.
      destruct p; cbn in Ht; try lia;
        cbn [byte_to_Z Byte.to_N Z.of_N Z.eqb Pos.eqb];
        rewrite Hall by assumption; reflexivity.
Qed.

Lemma read_varint_exhausted_witness :
  read_varint [xfe; x01; x02] = Ok (513, []).
Proof.
  destruct (read_varint_exhausted [xfe; x01; x02]) as (_ & _ & H).
  apply (H xfe [x01; x02]); [reflexivity | cbn; lia].
Defined.

(** ** Big-endian numbers *)

Lemma from_le_app (a b : bytes) :
  from_le (a ++ b) = from_le a + 256 ^ Z.of_nat (List.length a) * from_le b.
Proof.
  induction a as [|x t IH].
  - cbn [app from_le List.length]. change (256 ^ Z.of_nat 0) with 1. lia.
  - cbn [app from_le List.length]. rewrite IH, Nat2Z.inj_succ, Z.pow_succ_r by lia.
    ring.
Qed.

Lemma to_le_zero (k : nat) : to_le k 0 = repeat x00 k.
Proof.
  induction k as [|k IH]; [reflexivity|].
  cbn [to_le repeat]. change (0 / 256) with 0. rewrite IH. reflexivity.
Qed.

Lemma to_le_from_le (b : bytes) (k : nat) :
  to_le (List.length b + k) (from_le b) = b ++ repeat x00 k.
Proof.
  induction b as [|x t IH].
  - apply to_le_zero.
  - cbn [List.length Nat.add to_le from_le app].
    pose proof (byte_to_Z_range x) as Hx.
    replace ((byte_to_Z x + 256 * from_le t) mod 256) with (byte_to_Z x).
    2:{ apply Z.mod_unique with (q := from_le t); lia. }
    replace ((byte_to_Z x + 256 * from_le t) / 256) with (from_le t).
    2:{ apply Z.div_unique with (r := byte_to_Z x); lia. }
    rewrite byte_of_to_Z, IH. reflexivity.
Qed.

Lemma int_from_bytes_big_range (s : bytes) :
  0 <= int_from_bytes s big < 256 ^ Z.of_nat (List.length s).
Proof.
  unfold int_from_bytes. rewrite <- (length_rev s). apply from_le_range.
Qed.

(** [n.to_bytes(width, 'big')] of the number read from [s]: [s] behind as
    many zero bytes as the width leaves room for. *)
Lemma int_to_bytes_big_from_bytes (s : bytes) (width : nat) :
  (List.length s <= width)%nat ->
  int_to_bytes (int_from_bytes s big) (Z.of_nat width) big
  = Ok (repeat x00 (width - List.length s) ++ s).
Proof.
  intros Hlen. pose proof (int_from_bytes_big_range s) as Hr.
  rewrite int_to_bytes_ok.
  2: lia.
  2:{ split; [lia|]. eapply Z.lt_le_trans; [apply Hr|].
      apply Z.pow_le_mono_r; lia. }
  rewrite Nat2Z.id. unfold int_from_bytes.
  replace width with (List.length (rev s) + (width - List.length s))%nat at 1
    by (rewrite length_rev; lia).
  rewrite to_le_from_le, rev_app_distr, rev_involutive.
  rewrite rev_repeat. reflexivity.
Qed.

(** ** [int(hexlify(s), 16)] *)

Lemma hex_value_hexdigit (x : byte) :
  hex_value (nth (Z.to_nat (byte_to_Z x / 16)) hexdigits x00)
  = Some (byte_to_Z x / 16)
  /\ hex_value (nth (Z.to_nat (byte_to_Z x mod 16)) hexdigits x00)
     = Some (byte_to_Z x mod 16).
Proof. destruct x; split; vm_compute; reflexivity. Qed.

Lemma int16_digits_hexlify (s : bytes) (acc : Z) :
  int16_digits acc (hexlify s)
  = Ok (fold_left (fun a x => a * 256 + byte_to_Z x) s acc).
Proof.
  revert acc. induction s as [|x t IH]; intros acc; [reflexivity|].
  destruct (hex_value_hexdigit x) as [Hhi Hlo].
  cbn [hexlify flat_map app int16_digits fold_left].
  rewrite Hhi, Hlo. fold (hexlify t). rewrite IH. do 2 f_equal.
  pose proof (Z.div_mod (byte_to_Z x) 16). lia.
Qed.

Lemma fold_left_big_endian (s : bytes) (acc : Z) :
  fold_left (fun a x => a * 256 + byte_to_Z x) s acc
  = acc * 256 ^ Z.of_nat (List.length s) + int_from_bytes s big.
Proof.
  revert acc. unfold int_from_bytes.
  induction s as [|x t IH]; intros acc.
  - cbn. lia.
  - cbn [fold_left rev List.length]. rewrite IH, from_le_app, length_rev.
    rewrite Nat2Z.inj_succ, Z.pow_succ_r by lia. cbn [from_le]. ring.
Qed.

Lemma int_base16_hexlify (s : bytes) :
  s <> [] -> int_base16 (hexlify s) = Ok (int_from_bytes s big).
Proof.
  intros Hs. destruct s as [|x t]; [congruence|].
  change (int_base16 (hexlify (x :: t)))
    with (int16_digits 0 (hexlify (x :: t))).
  rewrite int16_digits_hexlify, fold_left_big_endian. reflexivity.
Qed.

(** ** Base58 digits *)

Lemma bytes_of_ints_byte (c : byte) : bytes_of_ints [byte_to_Z c] = Ok [c].
Proof.
  pose proof (byte_to_Z_range c) as Hc. cbn [bytes_of_ints bind].
  settle_tests. cbn. rewrite byte_of_to_Z. reflexivity.
Qed.

(** Every remainder picks an ASCII character of the alphabet, and
    [index] finds the remainder back: the alphabet has no repeats. *)
Lemma alphabet_digit (md : Z) :
  0 <= md < 58 ->
  exists c,
    getitem BASE58_ALPHABET md = Ok (byte_to_Z c)
    /\ index BASE58_ALPHABET c = Ok md
    /\ is_ascii c = true.
Proof.
  intros Hmd.
  assert (Hk : (Z.to_nat md < 58)%nat) by lia.
  rewrite <- (Z2Nat.id md) by lia.
  generalize dependent (Z.to_nat md). clear. intros k Hk.
  exists (nth k BASE58_ALPHABET x00).
  do 58 (destruct k as [|k]; [vm_compute; repeat split|]).
  lia.
Qed.

Lemma div_eucl_div_mod (a b : Z) : Z.div_eucl a b = (a / b, a mod b).
Proof.
  unfold Z.div, Z.modulo. destruct (Z.div_eucl a b). reflexivity.
Qed.

Lemma base58_digits_spec (fuel : nat) :
  forall (num : Z) (acc : bytes),
    0 <= num < 2 ^ Z.of_nat fuel ->
    exists ds,
      base58_digits fuel num acc = Ok (ds ++ acc)
      /\ forallb is_ascii ds = true
      /\ forall init rest,
          base58_number init (ds ++ rest)
          = base58_number (init * 58 ^ Z.of_nat (List.length ds) + num) rest.
Proof.
  induction fuel as [|fuel IH]; intros num acc Hnum.
  - change (2 ^ Z.of_nat 0) with 1 in Hnum.
    assert (num = 0) by lia. subst num.
    exists []. repeat split. intros init rest. cbn. f_equal. lia.
  - destruct (Z.eq_dec num 0) as [->|Hnz].
    + exists []. repeat split. intros init rest. cbn. f_equal. lia.
    + cbn [base58_digits].
      destruct (Z.gtb_spec num 0); [|lia].
      rewrite div_eucl_div_mod.
      destruct (alphabet_digit (num mod 58)) as (c & Hget & Hidx & Hasc).
      { apply Z.mod_pos_bound. lia. }
      rewrite Hget. cbn [bind]. rewrite bytes_of_ints_byte. cbn [bind app].
      destruct (IH (num / 58) (c :: acc)) as (ds & Hds & Hall & Hnumber).
      { split; [apply Z.div_pos; lia|].
        apply Z.div_lt_upper_bound; [lia|].
        rewrite Nat2Z.inj_succ, Z.pow_succ_r in Hnum by lia. lia. }
      exists (ds ++ [c]). rewrite <- app_assoc. split; [exact Hds|].
      split.
      { rewrite forallb_app, Hall. cbn. now rewrite Hasc. }
      intros init rest. rewrite <- app_assoc, Hnumber.
      cbn [app base58_number]. rewrite Hidx. cbn [bind]. f_equal.
      rewrite length_app, Nat2Z.inj_add, Z.pow_add_r by lia.
      cbn [List.length]. change (58 ^ Z.of_nat 1) with 58.
      pose proof (Z.div_mod num 58). lia.
Qed.

Lemma base58_number_ones (k : nat) (init : Z) (rest : bytes) :
  base58_number init (repeat x31 k ++ rest)
  = base58_number (init * 58 ^ Z.of_nat k) rest.
Proof.
  revert init. induction k as [|k IH]; intros init.
  - cbn. f_equal. lia.
  - cbn [repeat app base58_number].
    change (index BASE58_ALPHABET x31) with (Ok (A:=Z) 0). cbn [bind].
    rewrite IH, Nat2Z.inj_succ, Z.pow_succ_r by lia. f_equal. ring.
Qed.

Lemma forallb_is_ascii_ones (k : nat) : forallb is_ascii (repeat x31 k) = true.
Proof. induction k as [|k IH]; [reflexivity|]. cbn. exact IH. Qed.

(** [encode_base58] on a non-empty input: it returns ASCII text whose
    digits, read back, give the big-endian number of the input. *)
Lemma encode_base58_number (s : bytes) :
  s <> [] ->
  exists txt,
    encode_base58 s = Ok txt
    /\ forallb is_ascii txt = true
    /\ base58_number 0 txt = Ok (int_from_bytes s big).
Proof.
  intros Hs. unfold encode_base58.
  rewrite (int_base16_hexlify s Hs). cbn [bind].
  pose proof (int_from_bytes_big_range s) as [Hlo _].
  set (num := int_from_bytes s big) in *.
  destruct (base58_digits_spec (S (Z.to_nat (Z.log2 num))) num [])
    as (ds & Hds & Hall & Hnumber).
  { split; [exact Hlo|].
    rewrite Nat2Z.inj_succ, Z2Nat.id by apply Z.log2_nonneg.
    destruct (Z.eq_dec num 0) as [->|Hnz]; [reflexivity|].
    apply Z.log2_spec. lia. }
  rewrite Hds. cbn [bind]. rewrite app_nil_r.
  exists (repeat x31 (leading_zeros s) ++ ds). split; [reflexivity|].
  split; [now rewrite forallb_app, forallb_is_ascii_ones, Hall|].
  rewrite base58_number_ones.
  rewrite <- (app_nil_r ds), Hnumber. reflexivity.
Qed.

Lemma encode_base58_nil : encode_base58 [] = Raise ValueError.
Proof. reflexivity. Qed.

(** The digit loop of [encode_base58] always finishes within its bound. *)
Lemma encode_base58_terminates (s : bytes) : encode_base58 s <> Raise LoopBound.
Proof.
  destruct s as [|x t].
  - rewrite encode_base58_nil. discriminate.
  - destruct (encode_base58_number (x :: t)) as (txt & -> & _); discriminate.
Qed.

Lemma ascii_text (b : bytes) :
  forallb is_ascii b = true ->
  decode_ascii b = Ok (string_of_list_byte b)
  /\ encode_ascii (string_of_list_byte b) = Ok b.
Proof.
  intros Hb. unfold decode_ascii, encode_ascii.
  rewrite list_byte_of_string_of_list_byte, Hb. split; reflexivity.
Qed.

(** ** Decoding *)

Lemma decode_base58_buffer (s : string) :
  decode_base58 s = (buf <- base58_buffer s ;; Ok (slice_from_to_end 1 4 buf)).
Proof.
  unfold decode_base58, base58_buffer.
  destruct (encode_ascii s) as [cs|e]; [|reflexivity]. cbn [bind].
  destruct (base58_number 0 cs); reflexivity.
Qed.

Lemma slice_25 (buf : bytes) :
  List.length buf = 25%nat ->
  slice_from_to_end 1 4 buf = firstn 20 (skipn 1 buf)
  /\ List.length (slice_from_to_end 1 4 buf) = 20%nat.
Proof.
  intros Hlen. unfold slice_from_to_end. rewrite Hlen.
  change (25 - 4)%nat with (1 + 20)%nat. rewrite <- firstn_skipn_comm.
  split; [reflexivity|]. rewrite length_firstn, length_skipn. lia.
Qed.

Lemma int_to_bytes_length (n width : Z) (order : byteorder) (buf : bytes) :
  int_to_bytes n width order = Ok buf ->
  Z.of_nat (List.length buf) = width /\ 0 <= n < 256 ^ width
  /\ buf = match order with
           | little => to_le (Z.to_nat width) n
           | big => rev (to_le (Z.to_nat width) n)
           end.
Proof.
  unfold int_to_bytes.
  destruct (Z.ltb_spec width 0); [discriminate|].
  destruct (Z.ltb_spec n 0); [discriminate|].
  destruct (Z.leb_spec (256 ^ width) n); [discriminate|].
  intros [= <-]. split; [|split; [lia|reflexivity]].
  destruct order; rewrite ?length_rev, length_to_le; lia.
Qed.

(** A result of [decode_base58] is bytes 1 to 20 of the 25-byte big-endian
    rendering of the accumulated number. *)
Lemma decode_base58_ok_inv (s : string) (r : bytes) :
  decode_base58 s = Ok r ->
  List.length r = 20%nat
  /\ exists cs num,
       encode_ascii s = Ok cs /\ base58_number 0 cs = Ok num
       /\ 0 <= num < 256 ^ 25
       /\ r = firstn 20 (skipn 1 (rev (to_le 25 num))).
Proof.
  unfold decode_base58.
  destruct (encode_ascii s) as [cs|e]; [|discriminate]. cbn [bind].
  destruct (base58_number 0 cs) as [num|e] eqn:Hn; [|discriminate].
  cbn [bind].
  destruct (int_to_bytes num 25 big) as [buf|e] eqn:Hbuf; [|discriminate].
  cbn [bind]. intros [= <-].
  apply int_to_bytes_length in Hbuf. destruct Hbuf as (Hlen & Hnum & Hbuf).
  destruct (slice_25 buf) as [Hslice Hlen20]; [lia|].
  split; [exact Hlen20|]. exists cs, num.
  split; [reflexivity|]. split; [exact Hn|]. split; [exact Hnum|].
  rewrite Hslice, Hbuf. reflexivity.
Qed.

(** C10: whenever [decode_base58] returns, the result has exactly 20 bytes,
    namely bytes 1 to 20 of the accumulated number written big-endian on 25
    bytes, whatever the text; and when the accumulated number does not fit
    in 25 bytes, [decode_base58] raises [OverflowError]. *)
Theorem decode_base58_width (s : string) :
  (forall r, decode_base58 s = Ok r ->
     List.length r = 20%nat
     /\ exists cs num,
          encode_ascii s = Ok cs /\ base58_number 0 cs = Ok num
          /\ 0 <= num < 256 ^ 25
          /\ r = firstn 20 (skipn 1 (rev (to_le 25 num))))
  /\ (forall cs num,
        encode_ascii s = Ok cs -> base58_number 0 cs = Ok num ->
        256 ^ 25 <= num -> decode_base58 s = Raise OverflowError).
Proof.
  split.
  - intros r. apply decode_base58_ok_inv.
  - intros cs num Hcs Hnum Hbig. unfold decode_base58.
    rewrite Hcs. cbn [bind]. rewrite Hnum. cbn [bind].
    rewrite int_to_bytes_overflow by lia. reflexivity.
Qed.

Lemma decode_base58_width_witness :
  List.length (unhex "507b27411ccf7f16f10297de6cef3f291623eddf") = 20%nat
  /\ decode_base58 "zzzzzzzzzzzzzzzzzzzzzzzzzzzzzzzzzzz" = Raise OverflowError.
Proof.
  split.
  - apply (decode_base58_width "mnrVtF8DWjMu839VW3rBfgYaAfKk8983Xf").
    vm_compute. reflexivity.
  - destruct (decode_base58_width "zzzzzzzzzzzzzzzzzzzzzzzzzzzzzzzzzzz")
      as [_ H].
    eapply H; [vm_compute; reflexivity | vm_compute; reflexivity |].
    vm_compute. discriminate.
Defined.

(** What comes back from the text of a non-empty [s] of at most 25 bytes:
    [s] is right-aligned in the 25-byte buffer. *)
Lemma base58_buffer_encode (s : bytes) :
  s <> [] -> (List.length s <= 25)%nat ->
  exists b,
    encode_base58 s = Ok b
    /\ decode_ascii b = Ok (string_of_list_byte b)
    /\ base58_buffer (string_of_list_byte b)
       = Ok (repeat x00 (25 - List.length s) ++ s).
Proof.
  intros Hs Hlen.
  destruct (encode_base58_number s Hs) as (b & Henc & Hasc & Hnum).
  destruct (ascii_text b Hasc) as [Hdec Hback].
  exists b. split; [exact Henc|]. split; [exact Hdec|].
  unfold base58_buffer. rewrite Hback. cbn [bind]. rewrite Hnum. cbn [bind].
  apply (int_to_bytes_big_from_bytes s 25 Hlen).
Qed.

Lemma base58_roundtrip_padded (s : bytes) :
  s <> [] -> (List.length s <= 25)%nat ->
  base58_roundtrip s
  = Ok (firstn 20 (skipn 1 (repeat x00 (25 - List.length s) ++ s))).
Proof.
  intros Hs Hlen.
  destruct (base58_buffer_encode s Hs Hlen) as (b & Henc & Hdec & Hbuf).
  unfold base58_roundtrip, bytes_to_str. rewrite Henc. cbn [bind].
  rewrite Hdec. cbn [bind]. rewrite decode_base58_buffer, Hbuf. cbn [bind].
  f_equal. apply slice_25. rewrite length_app, repeat_length. lia.
Qed.

(** ** Leading zero bytes: [encode_base58] and back *)

(** C2 fails as stated: for the payload [01] the text is ["112"], and
    decoding it gives 20 zero bytes: the payload is gone and the result
    starts with 20 zero bytes, not with exactly two. *)
Lemma base58_leading_zeros_counterexample :
  encode_base58 [x00; x00; x01] = Ok (list_byte_of_string "112")
  /\ base58_roundtrip ([x00; x00] ++ [x01]) = Ok (repeat x00 20)
  /\ leading_zeros (repeat x00 20) <> 2%nat.
Proof. vm_compute. repeat split. discriminate. Qed.

(** C2, amended: for a payload of at most 23 bytes,
    [decode_base58(encode_base58(b'\x00\x00' + payload))] returns the first
    20 bytes of the payload put behind [24 - len(payload)] zero bytes: zero
    bytes are restored up to the fixed 25-byte width, not up to the length
    of the input.  The result starts with the two zero bytes followed by the
    payload's first 18 bytes when the payload has 22 bytes. *)
Theorem base58_leading_zeros (payload : bytes) :
  (List.length payload <= 23)%nat ->
  base58_roundtrip ([x00; x00] ++ payload)
  = Ok (firstn 20 (repeat x00 (24 - List.length payload) ++ payload))
  /\ (List.length payload = 22%nat ->
      base58_roundtrip ([x00; x00] ++ payload)
      = Ok (x00 :: x00 :: firstn 18 payload)).
Proof.
  intros Hlen.
  assert (E : base58_roundtrip ([x00; x00] ++ payload)
              = Ok (firstn 20 (repeat x00 (24 - List.length payload)
                               ++ payload))).
  { rewrite base58_roundtrip_padded; [|discriminate|cbn [app List.length]; lia].
    do 2 f_equal. cbn [app List.length].
    replace (repeat x00 (25 - S (S (List.length payload)))
             ++ x00 :: x00 :: payload)
      with (repeat x00 (1 + (24 - List.length payload)) ++ payload).
    - reflexivity.
    - replace (1 + (24 - List.length payload))%nat
        with ((25 - S (S (List.length payload))) + 2)%nat by lia.
      rewrite repeat_app, <- app_assoc. reflexivity. }
  split; [exact E|].
  intros H22. rewrite E, H22. reflexivity.
Qed.

Lemma base58_leading_zeros_witness :
  base58_roundtrip ([x00; x00] ++ repeat x07 22)
  = Ok (x00 :: x00 :: repeat x07 18).
Proof.
  destruct (base58_leading_zeros (repeat x07 22)) as [_ H];
    [vm_compute; lia|].
  apply H. reflexivity.
Defined.

(** ** All-zero inputs *)

(** At least one byte, all zero: [n] zero bytes encode to [n] characters
    ['1']. *)
Lemma encode_base58_zeros (n : nat) :
  (0 < n)%nat -> encode_base58 (repeat x00 n) = Ok (repeat x31 n).
Proof.
  intros Hn. unfold encode_base58.
  rewrite int_base16_hexlify by (destruct n; [lia|discriminate]).
  assert (Hzero : int_from_bytes (repeat x00 n) big = 0).
  { unfold int_from_bytes. rewrite rev_repeat.
    clear. induction n as [|n IH]; [reflexivity|].
    cbn [repeat from_le]. rewrite IH. reflexivity. }
  rewrite Hzero. cbn [bind].
  change (base58_digits (S (Z.to_nat (Z.log2 0))) 0 []) with (Ok (A:=bytes) []).
  cbn [bind]. rewrite app_nil_r. do 2 f_equal.
  clear. induction n as [|n IH]; [reflexivity|].
  cbn [repeat leading_zeros]. change (byte_to_Z x00 =? 0) with true.
  now rewrite IH.
Qed.

(** C9 at [n = 0]: the empty byte string makes [int(hexlify(s), 16)] raise
    [ValueError]; no text of zero characters is returned. *)
Theorem encode_base58_empty :
  encode_base58 (repeat x00 0) = Raise ValueError
  /\ encode_base58 (repeat x00 0) <> Ok (repeat x31 0).
Proof. split; [reflexivity|discriminate]. Qed.

(** ** Base58Check *)

Lemma length_sha256 (m : bytes) : List.length (Sha256.sha256 m) = 32%nat.
Proof.
  unfold Sha256.sha256, Sha256.digest_of, Sha256.word_bytes.
  repeat rewrite length_app. repeat rewrite length_rev.
  repeat rewrite length_to_le. reflexivity.
Qed.

Lemma length_checksum (s : bytes) :
  List.length (firstn 4 (double_sha256 s)) = 4%nat.
Proof.
  rewrite length_firstn. unfold double_sha256. rewrite length_sha256. lia.
Qed.

(** For at most 21 bytes, the decoded buffer is the zero-padded input and
    its checksum, and [decode_base58] keeps bytes 1 to 20. *)
Lemma base58check_roundtrip_padded (b : bytes) :
  (List.length b <= 21)%nat ->
  base58check_roundtrip b
  = Ok (skipn 1 (repeat x00 (21 - List.length b) ++ b)).
Proof.
  intros Hlen. pose proof (length_checksum b) as Hchk.
  unfold base58check_roundtrip, encode_base58_checksum.
  set (chk := firstn 4 (double_sha256 b)) in *.
  destruct (base58_buffer_encode (b ++ chk)) as (txt & Henc & Hdec & Hbuf).
  { intros E. apply (f_equal (@List.length byte)) in E.
    rewrite length_app, Hchk in E. cbn in E. lia. }
  { rewrite length_app. lia. }
  rewrite Henc. cbn [bind]. rewrite Hdec. cbn [bind].
  rewrite decode_base58_buffer, Hbuf. cbn [bind]. f_equal.
  rewrite length_app, Hchk.
  replace (25 - (List.length b + 4))%nat with (21 - List.length b)%nat by lia.
  set (pad := repeat x00 (21 - List.length b)).
  assert (Hpad : List.length (pad ++ b) = 21%nat).
  { unfold pad. rewrite length_app, repeat_length. lia. }
  unfold slice_from_to_end. rewrite app_assoc.
  rewrite length_app, Hpad, Hchk. change (21 + 4 - 4)%nat with 21%nat.
  rewrite firstn_app, Hpad, Nat.sub_diag, firstn_O, app_nil_r.
  rewrite <- Hpad at 1. rewrite firstn_all. reflexivity.
Qed.

(** C1 fails as stated, on the repository's own test vector: the 21 bytes
    [6f 507b...eddf] encode to the address of the test, the checksum in the
    decoded buffer verifies, and [decode_base58] returns the last 20 bytes
    only, without the leading [6f]. *)
Lemma base58check_roundtrip_counterexample :
  encode_base58_checksum
    (x6f :: unhex "507b27411ccf7f16f10297de6cef3f291623eddf")
  = Ok "mnrVtF8DWjMu839VW3rBfgYaAfKk8983Xf"%string
  /\ checksum_verified "mnrVtF8DWjMu839VW3rBfgYaAfKk8983Xf" = true
  /\ base58check_roundtrip
       (x6f :: unhex "507b27411ccf7f16f10297de6cef3f291623eddf")
     = Ok (unhex "507b27411ccf7f16f10297de6cef3f291623eddf")
  /\ base58check_roundtrip
       (x6f :: unhex "507b27411ccf7f16f10297de6cef3f291623eddf")
     <> Ok (x6f :: unhex "507b27411ccf7f16f10297de6cef3f291623eddf").
Proof.
  split; [vm_compute; reflexivity|].
  split; [vm_compute; reflexivity|].
  split; [vm_compute; reflexivity|].
  vm_compute. discriminate.
Qed.

(** C1, amended: [decode_base58(encode_base58_checksum(b)) == b] holds
    exactly for the byte strings [b] of 20 bytes.  For a [b] of 21 bytes (a
    version byte and a 20-byte payload) the result is [b[1:]]: the version
    byte is stripped together with the checksum. *)
Theorem base58check_roundtrip_20 (b : bytes) :
  (base58check_roundtrip b = Ok b <-> List.length b = 20%nat)
  /\ (List.length b = 21%nat -> base58check_roundtrip b = Ok (skipn 1 b)).
Proof.
  split; [split|].
  - unfold base58check_roundtrip.
    destruct (encode_base58_checksum b) as [txt|e]; [|discriminate].
    cbn [bind]. intros H. apply decode_base58_ok_inv in H. apply H.
  - intros H20. rewrite base58check_roundtrip_padded by lia.
    rewrite H20. reflexivity.
  - intros H21. rewrite base58check_roundtrip_padded by lia.
    rewrite H21. reflexivity.
Qed.

Lemma base58check_roundtrip_20_witness :
  base58check_roundtrip (unhex "507b27411ccf7f16f10297de6cef3f291623eddf")
  = Ok (unhex "507b27411ccf7f16f10297de6cef3f291623eddf")
  /\ base58check_roundtrip
       (x6f :: unhex "507b27411ccf7f16f10297de6cef3f291623eddf")
     = Ok (skipn 1 (x6f :: unhex "507b27411ccf7f16f10297de6cef3f291623eddf")).
Proof.
  split.
  - destruct (base58check_roundtrip_20
                (unhex "507b27411ccf7f16f10297de6cef3f291623eddf"))
      as [[_ H20] _].
    exact (H20 eq_refl).
  - destruct (base58check_roundtrip_20
                (x6f :: unhex "507b27411ccf7f16f10297de6cef3f291623eddf"))
      as [_ H21].
    exact (H21 eq_refl).
Defined.

(** * Further properties *)

(** ** Hashing *)

Example ripemd160_abc :
  Ripemd160.ripemd160 (list_byte_of_string "abc")
  = unhex "8eb208f7e05d987a9b044a8e98c6b087f15a0bfc".
Proof. vm_compute. reflexivity. Qed.

Example ripemd160_two_blocks :
  Ripemd160.ripemd160 (repeat x61 120)
  = unhex "c476770a6dae31fcee8d25efe6559a05c8024595".
Proof. vm_compute. reflexivity. Qed.

Example hash160_abc :
  hash160 (list_byte_of_string "abc")
  = unhex "bb1be98c142444d7a56aa3981c3942a978e4dc33".
Proof. vm_compute. reflexivity. Qed.

(** X1: [double_sha256] returns 32 bytes and [hash160] returns 20 bytes,
    whatever the input. *)
Theorem digest_lengths (s : bytes) :
  List.length (double_sha256 s) = 32%nat
  /\ List.length (hash160 s) = 20%nat.
Proof.
  split.
  - unfold double_sha256. apply length_sha256.
  - unfold hash160, Ripemd160.ripemd160, Ripemd160.digest_of.
    repeat rewrite length_app. repeat rewrite length_to_le. reflexivity.
Qed.

(** ** Endian codec, further *)

Lemma little_endian_decode_encode_aux (b : bytes) :
  int_to_little_endian (little_endian_to_int b) (Z.of_nat (List.length b))
  = Ok b.
Proof.
  unfold little_endian_to_int, int_from_bytes.
  rewrite int_to_little_endian_ok; [|lia|apply from_le_range].
  rewrite Nat2Z.id.
  rewrite <- (Nat.add_0_r (List.length b)), to_le_from_le.
  cbn [repeat]. now rewrite app_nil_r.
Qed.

(** X3: encoding what was decoded gives the bytes back: for every byte
    string [b], [int_to_little_endian(little_endian_to_int(b), len(b))]
    returns [b]. *)
Theorem little_endian_decode_encode (b : bytes) :
  int_to_little_endian (little_endian_to_int b) (Z.of_nat (List.length b))
  = Ok b.
Proof. apply little_endian_decode_encode_aux. Qed.

(** X4: [little_endian_to_int(b)] lies in [[0, 256^len(b))], and the empty
    byte string gives 0. *)
Theorem little_endian_to_int_range (b : bytes) :
  0 <= little_endian_to_int b < 256 ^ Z.of_nat (List.length b)
  /\ little_endian_to_int [] = 0.
Proof. split; [apply from_le_range|reflexivity]. Qed.

(** X5: on byte strings of one length [little_endian_to_int] is
    injective. *)
Theorem little_endian_to_int_inj (a b : bytes) :
  List.length a = List.length b ->
  little_endian_to_int a = little_endian_to_int b -> a = b.
Proof.
  intros Hlen Hval.
  pose proof (little_endian_decode_encode_aux a) as Ha.
  pose proof (little_endian_decode_encode_aux b) as Hb.
  rewrite Hval, Hlen in Ha. congruence.
Qed.

Lemma little_endian_to_int_inj_witness :
  [x01; x02] = [x01; x02].
Proof.
  apply (little_endian_to_int_inj [x01; x02] [x01; x02]); reflexivity.
Defined.

(** X6: the value of a concatenation is the value of the first part plus
    the value of the second shifted by the first part's length; so zero
    bytes appended at the end do not change the value. *)
Theorem little_endian_to_int_app (a b : bytes) (k : nat) :
  little_endian_to_int (a ++ b)
  = little_endian_to_int a
    + 256 ^ Z.of_nat (List.length a) * little_endian_to_int b
  /\ little_endian_to_int (a ++ repeat x00 k) = little_endian_to_int a.
Proof.
  unfold little_endian_to_int, int_from_bytes. split.
  - apply from_le_app.
  - rewrite from_le_app.
    replace (from_le (repeat x00 k)) with 0; [lia|].
    induction k as [|k IH]; [reflexivity|].
    cbn [repeat from_le]. rewrite <- IH. reflexivity.
Qed.

(** X7: a value that fits [length] bytes, encoded on [length + k] bytes, is
    its [length]-byte encoding followed by [k] zero bytes. *)
Theorem int_to_little_endian_extend (n length k : Z) :
  0 <= length -> 0 <= k -> 0 <= n < 256 ^ length ->
  exists bs,
    int_to_little_endian n length = Ok bs
    /\ int_to_little_endian n (length + k)
       = Ok (bs ++ repeat x00 (Z.to_nat k)).
Proof.
  intros Hl Hk Hn. exists (to_le (Z.to_nat length) n).
  split; [apply int_to_little_endian_ok; lia|].
  rewrite int_to_little_endian_ok; [|lia|].
  2:{ split; [lia|]. eapply Z.lt_le_trans; [apply Hn|].
      apply Z.pow_le_mono_r; lia. }
  f_equal. rewrite Z2Nat.inj_add by lia.
  set (len := Z.to_nat length).
  assert (Hfrom : from_le (to_le len n) = n).
  { rewrite from_le_to_le. unfold len. rewrite Z2Nat.id by lia.
    apply Z.mod_small. lia. }
  rewrite <- Hfrom at 1.
  rewrite <- (length_to_le len n) at 1.
  apply to_le_from_le.
Qed.

Lemma int_to_little_endian_extend_witness :
  exists bs,
    int_to_little_endian 513 2 = Ok bs
    /\ int_to_little_endian 513 (2 + 2) = Ok (bs ++ repeat x00 (Z.to_nat 2)).
Proof.
  apply (int_to_little_endian_extend 513 2 2); [lia | lia | ].
  vm_compute. split; [discriminate|reflexivity].
Defined.

(** ** Varint codec, further *)

Lemma encode_varint_negative_aux (i : Z) :
  i < 0 -> encode_varint i = Raise ValueError.
Proof.
  intros Hi. unfold encode_varint. settle_tests.
  cbn [bytes_of_ints]. settle_tests. reflexivity.
Qed.

(** X8: a negative integer is not encoded: [encode_varint] raises the
    [ValueError] of [bytes([i])], not the [RuntimeError] of the last
    branch. *)
Theorem encode_varint_negative (i : Z) :
  i < 0 -> encode_varint i = Raise ValueError.
Proof. apply encode_varint_negative_aux. Qed.

Lemma encode_varint_negative_witness : encode_varint (-1) = Raise ValueError.
Proof. apply (encode_varint_negative (-1)). lia. Defined.

Lemma little_endian_firstn_range (n : nat) (tl : bytes) :
  0 <= little_endian_to_int (firstn n tl) < 256 ^ Z.of_nat n.
Proof.
  pose proof (from_le_range (firstn n tl)) as H.
  unfold little_endian_to_int, int_from_bytes.
  split; [lia|]. eapply Z.lt_le_trans; [apply H|].
  apply Z.pow_le_mono_r; [lia|]. rewrite length_firstn. lia.
Qed.

(** X9: whatever [read_varint] returns is in [[0, 2^64)], and it consumes
    between 1 and 9 bytes from the front of the stream: the stream is the
    consumed bytes followed by what is left. *)
Theorem read_varint_result (s rest : stream) (v : Z) :
  read_varint s = Ok (v, rest) ->
  0 <= v < 2 ^ 64
  /\ exists used,
       s = used ++ rest /\ (1 <= List.length used <= 9)%nat.
Proof.
  destruct s as [|p tl]; [discriminate|].
  rewrite read_varint_cons.
  pose proof (byte_to_Z_range p) as Hp.
  pose proof (little_endian_firstn_range 2 tl) as H2.
  pose proof (little_endian_firstn_range 4 tl) as H4.
  pose proof (little_endian_firstn_range 8 tl) as H8.
  change (256 ^ Z.of_nat 2) with 0x10000 in H2.
  change (256 ^ Z.of_nat 4) with 0x100000000 in H4.
  change (256 ^ Z.of_nat 8) with 0x10000000000000000 in H8.
  change (2 ^ 64) with 0x10000000000000000.
  assert (Hused : forall n, (n <= 8)%nat ->
            exists used, p :: tl = used ++ skipn n tl
                         /\ (1 <= List.length used <= 9)%nat).
  { intros n Hn. exists (p :: firstn n tl). cbn [app List.length].
    rewrite firstn_skipn, length_firstn. split; [reflexivity|lia]. }
  remember (firstn 2 tl) as f2. remember (skipn 2 tl) as s2 eqn:E2.
  remember (firstn 4 tl) as f4. remember (skipn 4 tl) as s4 eqn:E4.
  remember (firstn 8 tl) as f8. remember (skipn 8 tl) as s8 eqn:E8.
  destruct (_ =? 0xfd); [|destruct (_ =? 0xfe); [|destruct (_ =? 0xff)]];
    intros [= <- <-].
  - split; [lia|]. rewrite E2. apply Hused. lia.
  - split; [lia|]. rewrite E4. apply Hused. lia.
  - split; [lia|]. rewrite E8. apply Hused. lia.
  - split; [lia|]. apply (Hused 0%nat). lia.
Qed.

Lemma read_varint_result_witness :
  0 <= 513 < 2 ^ 64
  /\ exists used,
       [xfd; x01; x02; x07] = used ++ [x07]
       /\ (1 <= List.length used <= 9)%nat.
Proof.
  apply (read_varint_result [xfd; x01; x02; x07] [x07] 513). reflexivity.
Defined.

(** X10: the encodings are self-delimiting: when the encodings of [a] and
    [b], each followed by any bytes, give the same stream, then [a = b] and
    the bytes that follow are the same. *)
Theorem encode_varint_prefix_free (a b : Z) (x y r1 r2 : bytes) :
  encode_varint a = Ok x -> encode_varint b = Ok y ->
  x ++ r1 = y ++ r2 -> a = b /\ x = y /\ r1 = r2.
Proof.
  intros Ha Hb Heq.
  assert (Hrange : forall i z, encode_varint i = Ok z ->
                               0 <= i < 0x10000000000000000).
  { intros i z Hi. split.
    - destruct (Z_lt_le_dec i 0) as [Hneg|]; [|assumption].
      rewrite (encode_varint_negative_aux i Hneg) in Hi. discriminate.
    - destruct (Z_lt_le_dec i 0x10000000000000000) as [|Hbig]; [assumption|].
      rewrite encode_varint_too_large_cases in Hi by exact Hbig.
      destruct (_ <=? i); discriminate. }
  destruct (varint_cases a (Hrange a x Ha)) as (x' & Hx & _ & _ & _ & Hra).
  destruct (varint_cases b (Hrange b y Hb)) as (y' & Hy & _ & _ & _ & Hrb).
  assert (x' = x) by congruence. assert (y' = y) by congruence. subst x' y'.
  specialize (Hra r1). specialize (Hrb r2). rewrite Heq in Hra.
  assert (E : (a, r1) = (b, r2)) by congruence.
  injection E as -> ->. split; [reflexivity|].
  split; [congruence|reflexivity].
Qed.

Lemma encode_varint_prefix_free_witness :
  300 = 300 /\ [xfd; x2c; x01] = [xfd; x2c; x01] /\ [x05] = [x05].
Proof.
  apply (encode_varint_prefix_free 300 300 [xfd; x2c; x01] [xfd; x2c; x01]
           [x05] [x05]); reflexivity.
Defined.

Lemma varint_payload_tests (p : byte) :
  varint_payload p
  = if byte_to_Z p =? 0xfd then 2%nat
    else if byte_to_Z p =? 0xfe then 4%nat
    else if byte_to_Z p =? 0xff then 8%nat
    else 0%nat.
Proof. destruct p; reflexivity. Qed.

Lemma encode_varint_short (v : Z) (w : nat) :
  In w varint_widths -> 0 <= v < varint_capacity w ->
  exists bs, encode_varint v = Ok bs /\ (List.length bs <= w)%nat.
Proof.
  intros Hw Hv.
  assert (Hcap : varint_capacity w <= 0x10000000000000000).
  { cbn in Hw. destruct Hw as [<-|[<-|[<-|[<-|[]]]]]; cbn; lia. }
  destruct (varint_cases v) as (bs & Henc & _ & _ & Hmin & _); [lia|].
  exists bs. split; [exact Henc|]. apply Hmin; [exact Hw|lia].
Qed.

(** Reading [n] payload bytes behind the prefix [pfx] and encoding the
    value again. *)
Lemma read_back_canonical (pfx : byte) (n w : nat) (lo : Z) (tl : bytes) :
  (n <= List.length tl)%nat ->
  In w varint_widths -> (w < S n)%nat -> varint_capacity w = lo ->
  256 ^ Z.of_nat n <= 0x10000000000000000 ->
  (forall v, lo <= v < 256 ^ Z.of_nat n ->
             encode_varint v = Ok (pfx :: to_le n v)) ->
  exists bs,
    encode_varint (little_endian_to_int (firstn n tl)) = Ok bs
    /\ (List.length bs + List.length (skipn n tl) <= S (List.length tl))%nat
    /\ ((List.length bs + List.length (skipn n tl))%nat = S (List.length tl)
        -> pfx :: tl = bs ++ skipn n tl).
Proof.
  intros Hn Hw Hwn Hlo Hmax Henc.
  pose proof (little_endian_firstn_range n tl) as Hv.
  set (v := little_endian_to_int (firstn n tl)) in *.
  rewrite length_skipn.
  destruct (Z_lt_le_dec v lo) as [Hsmall|Hlarge].
  - destruct (encode_varint_short v w Hw) as (bs & Hbs & Hlen); [lia|].
    exists bs. split; [exact Hbs|]. split; lia.
  - exists (pfx :: to_le n v). split; [apply Henc; lia|].
    cbn [List.length]. rewrite length_to_le. split; [lia|].
    intros _. cbn [app]. f_equal.
    unfold v, little_endian_to_int, int_from_bytes.
    assert (Hf : List.length (firstn n tl) = n)
      by (rewrite length_firstn; lia).
    rewrite <- Hf at 1. rewrite <- (Nat.add_0_r (List.length (firstn n tl))).
    rewrite to_le_from_le. cbn [repeat]. rewrite app_nil_r.
    symmetry. apply firstn_skipn.
Qed.

(** X11: on a stream that is not cut short, encoding the value that
    [read_varint] returned never takes more bytes than [read_varint]
    consumed, and when it takes as many, it is the consumed bytes again.
    (A value may be read from a longer, non-minimal encoding.) *)
Theorem read_varint_canonical (s rest : stream) (v : Z) :
  ~ truncated_varint s -> read_varint s = Ok (v, rest) ->
  exists bs,
    encode_varint v = Ok bs
    /\ (List.length bs + List.length rest <= List.length s)%nat
    /\ ((List.length bs + List.length rest)%nat = List.length s ->
        s = bs ++ rest).
Proof.
  destruct s as [|p tl]; [discriminate|].
  intros Htr. cbn [truncated_varint] in Htr.
  rewrite varint_payload_tests in Htr.
  rewrite read_varint_cons. pose proof (byte_to_Z_range p) as Hp.
  cbn [List.length].
  destruct (Z.eqb_spec (byte_to_Z p) 0xfd) as [Efd|Nfd];
    [|destruct (Z.eqb_spec (byte_to_Z p) 0xfe) as [Efe|Nfe];
      [|destruct (Z.eqb_spec (byte_to_Z p) 0xff) as [Eff|Nff]]].
  - assert (p = xfd) by (rewrite <- (byte_of_to_Z p), Efd; reflexivity).
    subst p. remember (firstn 2 tl) as f. remember (skipn 2 tl) as r.
    intros [= <- <-]. subst f r.
    apply (read_back_canonical xfd 2 1 0xfd tl);
      [lia | cbn; tauto | lia | reflexivity | cbn; lia |].
    intros v Hv. apply encode_varint_3.
    change (256 ^ Z.of_nat 2) with 0x10000 in Hv. lia.
  - assert (p = xfe) by (rewrite <- (byte_of_to_Z p), Efe; reflexivity).
    subst p. remember (firstn 4 tl) as f. remember (skipn 4 tl) as r.
    intros [= <- <-]. subst f r.
    apply (read_back_canonical xfe 4 3 0x10000 tl);
      [lia | cbn; tauto | lia | reflexivity | cbn; lia |].
    intros v Hv. apply encode_varint_5.
    change (256 ^ Z.of_nat 4) with 0x100000000 in Hv. lia.
  - assert (p = xff) by (rewrite <- (byte_of_to_Z p), Eff; reflexivity).
    subst p. remember (firstn 8 tl) as f. remember (skipn 8 tl) as r.
    intros [= <- <-]. subst f r.
    apply (read_back_canonical xff 8 5 0x100000000 tl);
      [lia | cbn; tauto | lia | reflexivity | cbn; lia |].
    intros v Hv. apply encode_varint_9.
    change (256 ^ Z.of_nat 8) with 0x10000000000000000 in Hv. lia.
  - intros [= <- <-]. exists [p].
    rewrite encode_varint_1 by lia. rewrite byte_of_to_Z.
    split; [reflexivity|]. cbn [List.length app]. split; [lia|reflexivity].
Qed.

Lemma read_varint_canonical_witness :
  exists bs,
    encode_varint 1 = Ok bs
    /\ (List.length bs + List.length [x09] <= List.length [xfd; x01; x00; x09])%nat
    /\ ((List.length bs + List.length [x09])%nat
        = List.length [xfd; x01; x00; x09] ->
        [xfd; x01; x00; x09] = bs ++ [x09]).
Proof.
  apply (read_varint_canonical [xfd; x01; x00; x09] [x09] 1);
    [cbn; lia | reflexivity].
Defined.

(** ** Base58 codec, further *)

Lemma byte_eqb_true (x y : byte) : Byte.eqb x y = true <-> x = y.
Proof. split; [apply Byte.byte_dec_bl|apply Byte.byte_dec_lb]. Qed.

Lemma index_not_in (b : bytes) (c : byte) :
  ~ In c b -> index b c = Raise ValueError.
Proof.
  induction b as [|x t IH]; intros Hin; [reflexivity|].
  cbn [index]. destruct (Byte.eqb x c) eqn:E.
  - apply byte_eqb_true in E. subst x. exfalso. apply Hin. now left.
  - rewrite IH; [reflexivity|]. intros H. apply Hin. now right.
Qed.

Lemma index_in (b : bytes) (c : byte) :
  In c b -> exists k, index b c = Ok k.
Proof.
  induction b as [|x t IH]; intros Hin; [destruct Hin|].
  cbn [index]. destruct (Byte.eqb x c) eqn:E; [now exists 0|].
  destruct Hin as [->|Hin].
  - assert (Byte.eqb c c = true) by now apply byte_eqb_true. congruence.
  - destruct (IH Hin) as [k ->]. now exists (k + 1).
Qed.

Lemma index_ok_in (b : bytes) (c : byte) (k : Z) :
  index b c = Ok k -> In c b.
Proof.
  intros H. destruct (in_dec Byte.byte_eq_dec c b) as [Hin|Hout];
    [assumption|].
  rewrite (index_not_in b c Hout) in H. discriminate.
Qed.

Lemma base58_number_bad (cs : bytes) (acc : Z) :
  ~ base58_text cs -> base58_number acc cs = Raise ValueError.
Proof.
  revert acc. induction cs as [|c t IH]; intros acc Hbad.
  - exfalso. apply Hbad. constructor.
  - cbn [base58_number].
    destruct (in_dec Byte.byte_eq_dec c BASE58_ALPHABET) as [Hin|Hout].
    + destruct (index_in _ _ Hin) as [k ->]. cbn [bind]. apply IH.
      intros Ht. apply Hbad. now constructor.
    + now rewrite index_not_in.
Qed.

Lemma base58_number_good (cs : bytes) (acc : Z) :
  base58_text cs -> exists n, base58_number acc cs = Ok n.
Proof.
  revert acc. induction cs as [|c t IH]; intros acc Hgood.
  - now exists acc.
  - inversion Hgood as [|? ? Hc Ht]; subst. cbn [base58_number].
    destruct (index_in _ _ Hc) as [k ->]. cbn [bind]. apply IH, Ht.
Qed.

Lemma base58_text_bool (cs : bytes) :
  base58_text cs
  <-> forallb (fun c => existsb (Byte.eqb c) BASE58_ALPHABET) cs = true.
Proof.
  unfold base58_text. rewrite Forall_forall, forallb_forall.
  split; intros H c Hc; specialize (H c Hc).
  - apply existsb_exists. exists c. split; [exact H|now apply byte_eqb_true].
  - apply existsb_exists in H. destruct H as (x & Hx & E).
    apply byte_eqb_true in E. now subst x.
Qed.

(** X12: [decode_base58] on a text with a non-ASCII character raises
    [UnicodeEncodeError]; on an ASCII text with a character outside the
    58-character alphabet it raises [ValueError]; so whenever it returns,
    all characters of the text are in the alphabet. *)
Theorem decode_base58_errors (s : string) :
  (forallb is_ascii (list_byte_of_string s) = false ->
   decode_base58 s = Raise UnicodeEncodeError)
  /\ (forallb is_ascii (list_byte_of_string s) = true ->
      ~ base58_text (list_byte_of_string s) ->
      decode_base58 s = Raise ValueError)
  /\ (is_ok (decode_base58 s) = true ->
      base58_text (list_byte_of_string s)).
Proof.
  unfold decode_base58, encode_ascii.
  destruct (forallb is_ascii (list_byte_of_string s)) eqn:Hasc.
  - split; [discriminate|]. cbn [bind]. split.
    + intros _ Hbad. now rewrite base58_number_bad.
    + intros Hok.
      assert (Hdec : forall P : Prop, {P} + {~ P} -> ~ ~ P -> P)
        by (intros P [H|H] HH; [exact H|contradiction]).
      apply Hdec; [apply Forall_dec; intros c;
                   apply (in_dec Byte.byte_eq_dec)|].
      intros Hbad. rewrite base58_number_bad in Hok by exact Hbad.
      discriminate.
  - split; [reflexivity|]. split; [discriminate|]. cbn. discriminate.
Qed.

Lemma decode_base58_errors_witness :
  decode_base58 "mnrVtF8DWjMu839VW3rBfgYaAfKk0983Xf" = Raise ValueError.
Proof.
  destruct (decode_base58_errors "mnrVtF8DWjMu839VW3rBfgYaAfKk0983Xf")
    as (_ & H & _).
  apply H; [reflexivity|].
  rewrite base58_text_bool. vm_compute. discriminate.
Defined.

(** X13: a character ['1'] in front of a text changes nothing for
    [decode_base58]: it stands for the digit 0. *)
Theorem decode_base58_leading_one (s : string) :
  decode_base58 (String "1" s) = decode_base58 s.
Proof.
  unfold decode_base58, encode_ascii.
  change (list_byte_of_string (String "1" s))
    with (x31 :: list_byte_of_string s).
  cbn [forallb]. change (is_ascii x31) with true. cbn [andb].
  destruct (forallb is_ascii (list_byte_of_string s)); reflexivity.
Qed.

Lemma alphabet_digit_shape (md : Z) (c : byte) :
  0 <= md < 58 -> getitem BASE58_ALPHABET md = Ok (byte_to_Z c) ->
  In c BASE58_ALPHABET /\ (md <> 0 -> c <> x31).
Proof.
  intros Hmd Hget.
  destruct (alphabet_digit md Hmd) as (c' & Hget' & Hidx & _).
  assert (c' = c).
  { rewrite Hget in Hget'. injection Hget' as E.
    rewrite <- (byte_of_to_Z c), <- (byte_of_to_Z c'). now rewrite E. }
  subst c'. split; [eapply index_ok_in; exact Hidx|].
  intros Hnz ->. change (index BASE58_ALPHABET x31) with (Ok (A:=Z) 0) in Hidx.
  congruence.
Qed.

(** The digits of a number: alphabet characters, none for 0, and no
    ['1'] in front otherwise. *)
Lemma base58_digits_shape (fuel : nat) :
  forall (num : Z) (acc : bytes),
    0 <= num < 2 ^ Z.of_nat fuel ->
    exists ds,
      base58_digits fuel num acc = Ok (ds ++ acc)
      /\ base58_text ds
      /\ (num = 0 -> ds = [])
      /\ (0 < num -> leading_ones ds = 0%nat /\ ds <> []).
Proof.
  induction fuel as [|fuel IH]; intros num acc Hnum.
  - change (2 ^ Z.of_nat 0) with 1 in Hnum.
    assert (num = 0) by lia. subst num.
    exists []. repeat split; try constructor; lia.
  - destruct (Z.eq_dec num 0) as [->|Hnz].
    + exists []. repeat split; try constructor; lia.
    + cbn [base58_digits].
      destruct (Z.gtb_spec num 0); [|lia].
      rewrite div_eucl_div_mod.
      assert (Hmd : 0 <= num mod 58 < 58) by (apply Z.mod_pos_bound; lia).
      destruct (alphabet_digit (num mod 58) Hmd) as (c & Hget & _ & _).
      destruct (alphabet_digit_shape _ _ Hmd Hget) as [Hin Hone].
      rewrite Hget. cbn [bind]. rewrite bytes_of_ints_byte. cbn [bind app].
      destruct (IH (num / 58) (c :: acc)) as (ds & Hds & Htxt & Hz & Hpos).
      { split; [apply Z.div_pos; lia|].
        apply Z.div_lt_upper_bound; [lia|].
        rewrite Nat2Z.inj_succ, Z.pow_succ_r in Hnum by lia. lia. }
      exists (ds ++ [c]). rewrite <- app_assoc. split; [exact Hds|].
      split; [apply Forall_app; split; [exact Htxt|now constructor]|].
      split; [lia|]. intros _.
      split; [|now destruct ds].
      destruct (Z.eq_dec (num / 58) 0) as [Hq|Hq].
      * rewrite (Hz Hq). cbn [app leading_ones].
        assert (Hne : c <> x31).
        { apply Hone. pose proof (Z.div_mod num 58). lia. }
        destruct (Byte.eqb c x31) eqn:E; [|reflexivity].
        apply byte_eqb_true in E. contradiction.
      * destruct Hpos as [Hlead Hne];
          [pose proof (Z.div_pos num 58); lia|].
        destruct ds as [|d t]; [contradiction|].
        cbn [app leading_ones] in *.
        destruct (Byte.eqb d x31); [discriminate|reflexivity].
Qed.

Lemma leading_ones_repeat (k : nat) (ds : bytes) :
  leading_ones ds = 0%nat -> leading_ones (repeat x31 k ++ ds) = k.
Proof.
  intros H. induction k as [|k IH]; [exact H|].
  cbn [repeat app leading_ones]. change (Byte.eqb x31 x31) with true.
  now rewrite IH.
Qed.

(** What [encode_base58] returns for a non-empty input. *)
Lemma encode_base58_shape (s : bytes) :
  s <> [] ->
  exists ds,
    encode_base58 s = Ok (repeat x31 (leading_zeros s) ++ ds)
    /\ base58_text ds /\ leading_ones ds = 0%nat
    /\ base58_number 0 (repeat x31 (leading_zeros s) ++ ds)
       = Ok (int_from_bytes s big).
Proof.
  intros Hs.
  destruct (encode_base58_number s Hs) as (txt & Henc & _ & Hnum).
  revert Henc. unfold encode_base58.
  rewrite (int_base16_hexlify s Hs). cbn [bind].
  pose proof (int_from_bytes_big_range s) as [Hlo _].
  set (num := int_from_bytes s big) in *.
  destruct (base58_digits_shape (S (Z.to_nat (Z.log2 num))) num [])
    as (ds & Hds & Htxt & Hz & Hpos).
  { split; [exact Hlo|].
    rewrite Nat2Z.inj_succ, Z2Nat.id by apply Z.log2_nonneg.
    destruct (Z.eq_dec num 0) as [->|Hnz]; [reflexivity|].
    apply Z.log2_spec. lia. }
  rewrite Hds. cbn [bind]. rewrite app_nil_r. intros [= <-].
  exists ds. split; [reflexivity|]. split; [exact Htxt|].
  split; [|exact Hnum].
  destruct (Z.eq_dec num 0) as [E|E]; [now rewrite (Hz E)|].
  apply Hpos. lia.
Qed.

Lemma base58_text_ones (k : nat) : base58_text (repeat x31 k).
Proof.
  apply Forall_forall. intros c Hc. apply repeat_spec in Hc. subst c.
  now left.
Qed.

(** X14: [encode_base58] raises (a [ValueError]) exactly on the empty byte
    string; on every other input it returns a text made of characters of
    the base58 alphabet only. *)
Theorem encode_base58_outcome (s : bytes) :
  (encode_base58 s = Raise ValueError <-> s = [])
  /\ (s <> [] -> exists txt, encode_base58 s = Ok txt /\ base58_text txt).
Proof.
  split; [split|].
  - intros H. destruct s as [|x t]; [reflexivity|].
    destruct (encode_base58_shape (x :: t)) as (ds & E & _); [discriminate|].
    congruence.
  - intros ->. reflexivity.
  - intros Hs. destruct (encode_base58_shape s Hs) as (ds & E & Htxt & _).
    eexists. split; [exact E|].
    apply Forall_app. split; [apply base58_text_ones|exact Htxt].
Qed.

Lemma encode_base58_outcome_witness :
  exists txt, encode_base58 [x00; x01] = Ok txt /\ base58_text txt.
Proof.
  destruct (encode_base58_outcome [x00; x01]) as [_ H].
  apply H. discriminate.
Defined.

(** X15: the text that [encode_base58] returns starts with exactly as many
    characters ['1'] as the input starts with zero bytes. *)
Theorem encode_base58_leading_ones (s txt : bytes) :
  encode_base58 s = Ok txt -> leading_ones txt = leading_zeros s.
Proof.
  intros H. destruct s as [|x t]; [discriminate|].
  destruct (encode_base58_shape (x :: t)) as (ds & E & _ & Hlead & _);
    [discriminate|].
  rewrite E in H. injection H as <-. now apply leading_ones_repeat.
Qed.

Lemma encode_base58_leading_ones_witness :
  leading_ones (list_byte_of_string "112") = leading_zeros [x00; x00; x01].
Proof.
  apply (encode_base58_leading_ones [x00; x00; x01]). reflexivity.
Defined.

(** X16: the text that [encode_base58] returns, read as a base-58 number
    the way [decode_base58] reads it, is the input read as a big-endian
    number. *)
Theorem encode_base58_value (s txt : bytes) :
  encode_base58 s = Ok txt ->
  base58_number 0 txt = Ok (int_from_bytes s big).
Proof.
  intros H. destruct s as [|x t]; [discriminate|].
  destruct (encode_base58_shape (x :: t)) as (ds & E & _ & _ & Hnum);
    [discriminate|].
  rewrite E in H. injection H as <-. exact Hnum.
Qed.

Lemma encode_base58_value_witness :
  base58_number 0 (list_byte_of_string "112")
  = Ok (int_from_bytes [x00; x00; x01] big).
Proof.
  apply (encode_base58_value [x00; x00; x01]). reflexivity.
Defined.

Lemma from_le_zeros (k : nat) : from_le (repeat x00 k) = 0.
Proof.
  induction k as [|k IH]; [reflexivity|].
  cbn [repeat from_le]. rewrite IH. reflexivity.
Qed.

Lemma int_from_bytes_big_zeros (k : nat) (t : bytes) :
  int_from_bytes (repeat x00 k ++ t) big = int_from_bytes t big.
Proof.
  unfold int_from_bytes.
  rewrite rev_app_distr, rev_repeat, from_le_app, from_le_zeros. lia.
Qed.

Lemma leading_zeros_split (s : bytes) :
  s = repeat x00 (leading_zeros s) ++ skipn (leading_zeros s) s
  /\ leading_zeros (skipn (leading_zeros s) s) = 0%nat.
Proof.
  induction s as [|x t [IH1 IH2]]; [split; reflexivity|].
  cbn [leading_zeros]. destruct (Z.eqb_spec (byte_to_Z x) 0) as [E|E].
  - assert (x = x00) by (rewrite <- (byte_of_to_Z x), E; reflexivity).
    subst x. cbn [repeat app skipn]. split; [now rewrite <- IH1|exact IH2].
  - cbn [repeat app skipn leading_zeros].
    destruct (Z.eqb_spec (byte_to_Z x) 0); [contradiction|].
    split; reflexivity.
Qed.

Lemma int_from_bytes_big_lower (t : bytes) :
  leading_zeros t = 0%nat -> t <> [] ->
  256 ^ (Z.of_nat (List.length t) - 1) <= int_from_bytes t big.
Proof.
  intros Hlz Hne. destruct t as [|x t']; [contradiction|].
  cbn [leading_zeros] in Hlz.
  destruct (Z.eqb_spec (byte_to_Z x) 0) as [|Hx]; [discriminate|].
  unfold int_from_bytes. cbn [rev List.length].
  rewrite from_le_app, length_rev. cbn [from_le].
  replace (Z.of_nat (S (List.length t')) - 1)
    with (Z.of_nat (List.length t')) by lia.
  pose proof (from_le_range (rev t')) as Hr.
  pose proof (byte_to_Z_range x) as Hb.
  assert (0 < 256 ^ Z.of_nat (List.length t')) by (apply Z.pow_pos_nonneg; lia).
  nia.
Qed.

Lemma from_le_inj (a b : bytes) :
  List.length a = List.length b -> from_le a = from_le b -> a = b.
Proof.
  intros Hlen Hval.
  pose proof (to_le_from_le a 0) as Ha.
  pose proof (to_le_from_le b 0) as Hb.
  rewrite Hval, Hlen in Ha. cbn [repeat] in Ha, Hb.
  rewrite !app_nil_r in *. congruence.
Qed.

Lemma int_from_bytes_big_inj (a b : bytes) :
  leading_zeros a = leading_zeros b ->
  int_from_bytes a big = int_from_bytes b big -> a = b.
Proof.
  intros Hlz Hval.
  destruct (leading_zeros_split a) as [Ea Za].
  destruct (leading_zeros_split b) as [Eb Zb].
  remember (skipn (leading_zeros a) a) as a' eqn:Ha'.
  remember (skipn (leading_zeros b) b) as b' eqn:Hb'.
  remember (leading_zeros a) as ka eqn:Hka.
  remember (leading_zeros b) as kb eqn:Hkb.
  clear Ha' Hb' Hka Hkb. subst a b kb.
  rewrite !int_from_bytes_big_zeros in Hval. f_equal.
  pose proof (int_from_bytes_big_range a') as Ra.
  pose proof (int_from_bytes_big_range b') as Rb.
  assert (Hlen : List.length a' = List.length b').
  { destruct (Nat.lt_trichotomy (List.length a') (List.length b'))
      as [Hlt|[Heq|Hgt]]; [exfalso|exact Heq|exfalso].
    - assert (b' <> []) by (intros ->; cbn in Hlt; lia).
      pose proof (int_from_bytes_big_lower b' Zb H) as Hb.
      assert (256 ^ Z.of_nat (List.length a')
              <= 256 ^ (Z.of_nat (List.length b') - 1))
        by (apply Z.pow_le_mono_r; lia).
      lia.
    - assert (a' <> []) by (intros ->; cbn in Hgt; lia).
      pose proof (int_from_bytes_big_lower a' Za H) as Ha.
      assert (256 ^ Z.of_nat (List.length b')
              <= 256 ^ (Z.of_nat (List.length a') - 1))
        by (apply Z.pow_le_mono_r; lia).
      lia. }
  unfold int_from_bytes in Hval.
  apply from_le_inj in Hval; [|now rewrite !length_rev].
  rewrite <- (rev_involutive a'), <- (rev_involutive b'). now rewrite Hval.
Qed.

(** X17: [encode_base58] is injective: two byte strings with the same text
    are the same byte string. *)
Theorem encode_base58_inj (a b txt : bytes) :
  encode_base58 a = Ok txt -> encode_base58 b = Ok txt -> a = b.
Proof.
  intros Ha Hb.
  assert (Na : a <> []) by (intros ->; discriminate).
  assert (Nb : b <> []) by (intros ->; discriminate).
  destruct (encode_base58_shape a Na) as (da & Ea & _ & La & Va).
  destruct (encode_base58_shape b Nb) as (db & Eb & _ & Lb & Vb).
  rewrite Ea in Ha. rewrite Eb in Hb.
  injection Ha as Ha. injection Hb as Hb.
  apply int_from_bytes_big_inj.
  - rewrite <- (leading_ones_repeat (leading_zeros a) da La).
    rewrite <- (leading_ones_repeat (leading_zeros b) db Lb).
    congruence.
  - rewrite Ha in Va. rewrite Hb in Vb. congruence.
Qed.

Lemma encode_base58_inj_witness : [x00; x01] = [x00; x01].
Proof.
  apply (encode_base58_inj [x00; x01] [x00; x01] (list_byte_of_string "12"));
    reflexivity.
Defined.

(** X18: a zero byte put in front of a non-empty input puts one character
    ['1'] in front of its text. *)
Theorem encode_base58_zero_byte (s : bytes) :
  s <> [] ->
  encode_base58 (x00 :: s) = (txt <- encode_base58 s ;; Ok (x31 :: txt)).
Proof.
  intros Hs. unfold encode_base58.
  rewrite (int_base16_hexlify s Hs).
  rewrite (int_base16_hexlify (x00 :: s)) by discriminate.
  change (x00 :: s) with (repeat x00 1 ++ s) at 1.
  rewrite int_from_bytes_big_zeros. cbn [bind].
  destruct (base58_digits _ _ _); reflexivity.
Qed.

Lemma encode_base58_zero_byte_witness :
  encode_base58 (x00 :: [x01]) = (txt <- encode_base58 [x01] ;; Ok (x31 :: txt)).
Proof. apply (encode_base58_zero_byte [x01]). discriminate. Defined.

(** X19: a run of zero bytes does not come back: for every [n >= 1], the
    text of [n] zero bytes decodes to 20 zero bytes. *)
Theorem base58_roundtrip_zeros (n : nat) :
  (0 < n)%nat -> base58_roundtrip (repeat x00 n) = Ok (repeat x00 20).
Proof.
  intros Hn. unfold base58_roundtrip, bytes_to_str.
  rewrite (encode_base58_zeros n Hn). cbn [bind].
  destruct (ascii_text (repeat x31 n) (forallb_is_ascii_ones n)) as [Hd He].
  rewrite Hd. cbn [bind]. unfold decode_base58. rewrite He. cbn [bind].
  rewrite <- (app_nil_r (repeat x31 n)), base58_number_ones.
  cbn [base58_number bind]. reflexivity.
Qed.

Lemma base58_roundtrip_zeros_witness :
  base58_roundtrip (repeat x00 30) = Ok (repeat x00 20).
Proof. apply (base58_roundtrip_zeros 30). lia. Defined.

(** ** Base58Check, further *)

Lemma decode_text_overflow (s : bytes) :
  s <> [] -> 256 ^ 25 <= int_from_bytes s big ->
  exists txt,
    encode_base58 s = Ok txt
    /\ decode_ascii txt = Ok (string_of_list_byte txt)
    /\ decode_base58 (string_of_list_byte txt) = Raise OverflowError.
Proof.
  intros Hs Hbig.
  destruct (encode_base58_number s Hs) as (txt & Henc & Hasc & Hnum).
  destruct (ascii_text txt Hasc) as [Hdec Hback].
  exists txt. split; [exact Henc|]. split; [exact Hdec|].
  unfold decode_base58. rewrite Hback. cbn [bind]. rewrite Hnum. cbn [bind].
  rewrite int_to_bytes_overflow by lia. reflexivity.
Qed.

Lemma leading_zeros_app (b c : bytes) :
  b <> [] -> leading_zeros b = 0%nat -> leading_zeros (b ++ c) = 0%nat.
Proof.
  intros Hb Hlz. destruct b as [|x t]; [contradiction|].
  cbn [app leading_zeros] in *.
  destruct (byte_to_Z x =? 0); [discriminate|reflexivity].
Qed.

Lemma long_input_overflow (s : bytes) :
  leading_zeros s = 0%nat -> (26 <= List.length s)%nat ->
  s <> [] /\ 256 ^ 25 <= int_from_bytes s big.
Proof.
  intros Hlz Hlen.
  assert (Hs : s <> []) by (intros ->; cbn in Hlen; lia).
  split; [exact Hs|].
  pose proof (int_from_bytes_big_lower s Hlz Hs) as Hlow.
  assert (256 ^ 25 <= 256 ^ (Z.of_nat (List.length s) - 1))
    by (apply Z.pow_le_mono_r; lia).
  lia.
Qed.

(** X20: an input that is too long for the 25-byte buffer cannot be read
    back: when the first byte is not zero, [decode_base58] raises
    [OverflowError] on the text of 26 or more bytes, so also on the
    Base58Check text of 22 or more bytes. *)
Theorem base58_too_long (s : bytes) :
  leading_zeros s = 0%nat ->
  ((26 <= List.length s)%nat -> base58_roundtrip s = Raise OverflowError)
  /\ ((22 <= List.length s)%nat ->
      base58check_roundtrip s = Raise OverflowError).
Proof.
  intros Hlz. split; intros Hlen.
  - destruct (long_input_overflow s Hlz Hlen) as [Hs Hbig].
    destruct (decode_text_overflow s Hs Hbig) as (txt & Henc & Hdec & Hov).
    unfold base58_roundtrip, bytes_to_str.
    rewrite Henc. cbn [bind]. rewrite Hdec. cbn [bind]. exact Hov.
  - assert (Hs : s <> []) by (intros ->; cbn in Hlen; lia).
    pose proof (length_checksum s) as Hchk.
    set (chk := firstn 4 (double_sha256 s)) in *.
    destruct (long_input_overflow (s ++ chk)) as [Hne Hbig].
    { now apply leading_zeros_app. }
    { rewrite length_app. lia. }
    destruct (decode_text_overflow _ Hne Hbig) as (txt & Henc & Hdec & Hov).
    unfold base58check_roundtrip, encode_base58_checksum. fold chk.
    rewrite Henc. cbn [bind]. rewrite Hdec. cbn [bind]. exact Hov.
Qed.

Lemma base58_too_long_witness :
  base58_roundtrip (repeat x01 26) = Raise OverflowError
  /\ base58check_roundtrip (repeat x01 22) = Raise OverflowError.
Proof.
  destruct (base58_too_long (repeat x01 26)) as [H26 _]; [reflexivity|].
  destruct (base58_too_long (repeat x01 22)) as [_ H22]; [reflexivity|].
  split; [apply H26|apply H22]; vm_compute; lia.
Defined.

(** X21: [encode_base58_checksum] never raises: for every byte string it
    returns a text, and the text is made of characters of the base58
    alphabet only. *)
Theorem encode_base58_checksum_total (s : bytes) :
  exists txt,
    encode_base58_checksum s = Ok txt
    /\ base58_text (list_byte_of_string txt).
Proof.
  pose proof (length_checksum s) as Hchk.
  unfold encode_base58_checksum.
  set (chk := firstn 4 (double_sha256 s)) in *.
  assert (Hne : s ++ chk <> []).
  { intros E. apply (f_equal (@List.length byte)) in E.
    rewrite length_app, Hchk in E. cbn in E. lia. }
  destruct (encode_base58_number _ Hne) as (txt & Henc & Hasc & _).
  destruct (encode_base58_shape _ Hne) as (ds & Eshape & Htxt & _).
  destruct (ascii_text txt Hasc) as [Hdec _].
  rewrite Henc. cbn [bind]. rewrite Hdec.
  exists (string_of_list_byte txt). split; [reflexivity|].
  rewrite list_byte_of_string_of_list_byte.
  assert (txt = repeat x31 (leading_zeros (s ++ chk)) ++ ds) by congruence.
  subst txt. apply Forall_app. split; [apply base58_text_ones|exact Htxt].
Qed.

Lemma length_hash160 (s : bytes) : List.length (hash160 s) = 20%nat.
Proof.
  unfold hash160, Ripemd160.ripemd160, Ripemd160.digest_of.
  repeat rewrite length_app. repeat rewrite length_to_le. reflexivity.
Qed.

(** X22: the address round trip: for every version byte and every data,
    [decode_base58(encode_base58_checksum(version + hash160(data)))] is
    [hash160(data)]. *)
Theorem address_roundtrip (version : byte) (data : bytes) :
  base58check_roundtrip (version :: hash160 data) = Ok (hash160 data).
Proof.
  rewrite base58check_roundtrip_padded
    by (cbn [List.length]; rewrite length_hash160; lia).
  cbn [List.length]. rewrite length_hash160. reflexivity.
Qed.

(** X23: a payload of fewer than 20 bytes comes back longer: for at most
    20 bytes, [decode_base58(encode_base58_checksum(b))] is [b] behind
    [20 - len(b)] zero bytes. *)
Theorem base58check_short (b : bytes) :
  (List.length b <= 20)%nat ->
  base58check_roundtrip b = Ok (repeat x00 (20 - List.length b) ++ b).
Proof.
  intros Hlen. rewrite base58check_roundtrip_padded by lia.
  replace (21 - List.length b)%nat with (S (20 - List.length b)) by lia.
  reflexivity.
Qed.

Lemma base58check_short_witness :
  base58check_roundtrip [x2a]
  = Ok (repeat x00 (20 - List.length [x2a]) ++ [x2a]).
Proof. apply (base58check_short [x2a]). vm_compute. lia. Defined.

(** ** Text and bytes *)

(** X24: called without an [encoding] argument (so with ['ascii']),
    [str_to_bytes(bytes_to_str(b))] is [b] for every byte string [b] whose
    bytes are all below 128, and [bytes_to_str(str_to_bytes(s))] is [s] for
    every ASCII string [s]. *)
Theorem ascii_roundtrips (b : bytes) (s : string) :
  (forallb is_ascii b = true ->
   (t <- bytes_to_str b ;; str_to_bytes t) = Ok b)
  /\ (forallb is_ascii (list_byte_of_string s) = true ->
      (t <- str_to_bytes s ;; bytes_to_str t) = Ok s).
Proof.
  unfold bytes_to_str, str_to_bytes, decode_ascii, encode_ascii.
  split; intros H.
  - rewrite H. cbn [bind]. rewrite list_byte_of_string_of_list_byte, H.
    reflexivity.
  - rewrite H. cbn [bind]. rewrite H, string_of_list_byte_of_string.
    reflexivity.
Qed.

Lemma ascii_roundtrips_witness :
  (t <- bytes_to_str (list_byte_of_string "hello world") ;; str_to_bytes t)
  = Ok (list_byte_of_string "hello world")
  /\ (t <- str_to_bytes "hello world" ;; bytes_to_str t)
     = Ok "hello world"%string.
Proof.
  destruct (ascii_roundtrips (list_byte_of_string "hello world")
                             "hello world") as [H1 H2].
  split; [apply H1|apply H2]; reflexivity.
Defined.

(** ** Hexadecimal strings *)

Lemma hexdigit_ascii (x : byte) :
  is_ascii (nth (Z.to_nat (byte_to_Z x / 16)) hexdigits x00) = true
  /\ is_ascii (nth (Z.to_nat (byte_to_Z x mod 16)) hexdigits x00) = true.
Proof. destruct x; split; vm_compute; reflexivity. Qed.

Lemma hexlify_ascii (b : bytes) : forallb is_ascii (hexlify b) = true.
Proof.
  induction b as [|x t IH]; [reflexivity|].
  destruct (hexdigit_ascii x) as [Hhi Hlo].
  cbn [hexlify flat_map app forallb]. fold (hexlify t).
  now rewrite Hhi, Hlo, IH.
Qed.

Lemma length_hexlify (b : bytes) :
  List.length (hexlify b) = (2 * List.length b)%nat.
Proof.
  induction b as [|x t IH]; [reflexivity|].
  cbn [hexlify flat_map app List.length]. fold (hexlify t). rewrite IH. lia.
Qed.

Lemma unhexlify_hexlify (b : bytes) : unhexlify_digits (hexlify b) = Ok b.
Proof.
  induction b as [|x t IH]; [reflexivity|].
  destruct (hex_value_hexdigit x) as [Hhi Hlo].
  cbn [hexlify flat_map app unhexlify_digits]. fold (hexlify t).
  rewrite Hhi, Hlo, IH. cbn [bind]. do 2 f_equal.
  rewrite <- (byte_of_to_Z x) at 3. f_equal.
  pose proof (Z.div_mod (byte_to_Z x) 16). lia.
Qed.

(** The text of [hexlify(b).decode('ascii')]. *)
Lemma hexlify_text (b : bytes) :
  decode_ascii (hexlify b) = Ok (string_of_list_byte (hexlify b))
  /\ unhexlify (string_of_list_byte (hexlify b)) = Ok b.
Proof.
  unfold decode_ascii, unhexlify.
  rewrite hexlify_ascii, list_byte_of_string_of_list_byte, unhexlify_hexlify.
  split; reflexivity.
Qed.

(** What [unhexlify_digits] returns has half the length, and the digits
    are hexadecimal. *)
Lemma unhexlify_digits_ok (n : nat) :
  forall (l b : bytes),
    (List.length l <= n)%nat -> unhexlify_digits l = Ok b ->
    List.length l = (2 * List.length b)%nat
    /\ forallb is_hex_digit l = true.
Proof.
  induction n as [|n IH]; intros l b Hn H.
  - destruct l; [|cbn in Hn; lia]. injection H as <-. split; reflexivity.
  - destruct l as [|a [|c t]]; [injection H as <-; split; reflexivity
                               |discriminate|].
    cbn [unhexlify_digits] in H. cbn [forallb]. unfold is_hex_digit at 1 2.
    destruct (hex_value a) as [x|]; [|discriminate].
    destruct (hex_value c) as [y|]; [|discriminate].
    destruct (unhexlify_digits t) as [bt|] eqn:Et; [|discriminate].
    injection H as <-.
    destruct (IH t bt) as [Hlen Hhex]; [cbn in Hn; lia|exact Et|].
    cbn [List.length andb]. split; [lia|exact Hhex].
Qed.

(** [unhexlify_digits] returns on every even number of hexadecimal
    digits, and raises [ValueError] otherwise. *)
Lemma unhexlify_digits_outcome (n : nat) :
  forall l : bytes,
    (List.length l <= n)%nat ->
    if Nat.even (List.length l) && forallb is_hex_digit l
    then exists b, unhexlify_digits l = Ok b
    else unhexlify_digits l = Raise ValueError.
Proof.
  induction n as [|n IH]; intros l Hn.
  - destruct l; [|cbn in Hn; lia]. cbn. now exists [].
  - destruct l as [|a [|c t]]; [cbn; now exists []|reflexivity|].
    specialize (IH t). cbn [List.length] in *.
    change (Nat.even (S (S (List.length t))))
      with (Nat.even (List.length t)).
    cbn [forallb unhexlify_digits]. unfold is_hex_digit at 1 2.
    destruct (hex_value a) as [x|];
      [|now rewrite andb_false_r].
    destruct (hex_value c) as [y|];
      [|cbn [andb]; now rewrite andb_false_r].
    cbn [andb].
    destruct (Nat.even (List.length t) && forallb is_hex_digit t).
    + destruct IH as [bt ->]; [lia|]. cbn [bind]. eexists. reflexivity.
    + rewrite IH by lia. reflexivity.
Qed.

(** X25: [flip_endian] returns exactly on strings of an even number of
    hexadecimal digits (of either case), and raises [ValueError] on every
    other string; the result has the length of the input. *)
Theorem flip_endian_outcome (h : string) :
  (is_ok (flip_endian h) = true
   <-> Nat.even (String.length h) = true
       /\ forallb is_hex_digit (list_byte_of_string h) = true)
  /\ (is_ok (flip_endian h) = false -> flip_endian h = Raise ValueError)
  /\ (forall h', flip_endian h = Ok h' ->
                 String.length h' = String.length h).
Proof.
  assert (Hlen : forall s, String.length s
                           = List.length (list_byte_of_string s)).
  { intros s. unfold list_byte_of_string. rewrite length_map.
    induction s as [|a s IH]; [reflexivity|]. cbn. now rewrite IH. }
  rewrite Hlen. unfold flip_endian, unhexlify.
  pose proof (unhexlify_digits_outcome _ (list_byte_of_string h)
                (Nat.le_refl _)) as Hout.
  destruct (Nat.even (List.length (list_byte_of_string h))
            && forallb is_hex_digit (list_byte_of_string h)) eqn:Htest.
  - destruct Hout as [b Hb]. rewrite Hb. cbn [bind].
    destruct (hexlify_text (rev b)) as [Htxt _]. rewrite Htxt.
    apply andb_true_iff in Htest.
    split; [split; [intros _; exact Htest|reflexivity]|].
    split; [discriminate|].
    intros h' [= <-]. rewrite Hlen, list_byte_of_string_of_list_byte.
    rewrite length_hexlify, length_rev.
    symmetry. eapply unhexlify_digits_ok; [apply Nat.le_refl|exact Hb].
  - rewrite Hout. cbn [bind is_ok].
    split; [split; [discriminate|]|split; [reflexivity|discriminate]].
    intros [H1 H2]. rewrite H1, H2 in Htest. discriminate.
Qed.

Lemma flip_endian_outcome_witness :
  flip_endian "abc" = Raise ValueError.
Proof.
  destruct (flip_endian_outcome "abc") as (_ & H & _).
  apply H. reflexivity.
Defined.

Lemma flip_endian_hexlify_aux (b : bytes) :
  flip_endian (string_of_list_byte (hexlify b))
  = Ok (string_of_list_byte (hexlify (rev b))).
Proof.
  unfold flip_endian.
  destruct (hexlify_text b) as [_ Hun]. rewrite Hun. cbn [bind].
  apply hexlify_text.
Qed.

(** X26: on the hexadecimal text of a byte string, [flip_endian] returns
    the hexadecimal text of the reversed byte string. *)
Theorem flip_endian_hexlify (b : bytes) :
  flip_endian (string_of_list_byte (hexlify b))
  = Ok (string_of_list_byte (hexlify (rev b))).
Proof. apply flip_endian_hexlify_aux. Qed.

(** X27: [flip_endian] undoes itself on its results: when it returns [h']
    for [h], it returns some [h''] for [h'], and [h'] again for [h'']. *)
Theorem flip_endian_twice (h h' : string) :
  flip_endian h = Ok h' ->
  exists h'', flip_endian h' = Ok h'' /\ flip_endian h'' = Ok h'.
Proof.
  unfold flip_endian at 1.
  destruct (unhexlify h) as [b|e]; [|discriminate]. cbn [bind].
  destruct (hexlify_text (rev b)) as [Htxt _]. rewrite Htxt.
  intros [= <-]. exists (string_of_list_byte (hexlify (rev (rev b)))).
  split; [apply flip_endian_hexlify_aux|].
  rewrite flip_endian_hexlify_aux, rev_involutive. reflexivity.
Qed.

Lemma flip_endian_twice_witness :
  exists h'', flip_endian "0200" = Ok h'' /\ flip_endian h'' = Ok "0200"%string.
Proof. apply (flip_endian_twice "0002" "0200"). reflexivity. Defined.

Example test_flip_endian :
  flip_endian
    "03ee4f7a4e68f802303bc659f8f817964b4b74fe046facc3ae1be4679d622c45"
  = Ok "452c629d67e41baec3ac6f04fe744b4b9617f8f859c63b3002f8684e7a4fee03"%string
  /\ flip_endian
       "813f79011acb80925dfe69b3def355fe914bd1d96a3f5f71bf8303c6a989c7d1"
     = Ok "d1c789a9c60383bf715f3f6ad9d14b91fe55f3deb369fe5d9280cb1a01793f81"%string.
Proof. split; vm_compute; reflexivity. Qed.
